(** * systress: a shallow embedding of [stress_tester.py]

    The development follows the layout of the Python module: the Python
    primitives the code relies on, then the CPU test, the RAM test, the
    network test, and finally the theorems about them. *)

From Stdlib Require Import ZArith QArith Lia Lqa Bool String.
From stdpp Require Import base list.

Local Open Scope Z_scope.

(** ** Python primitives *)

Module Py.

(** The exceptions the modelled code can meet. *)
Inductive exn : Type :=
| OverflowError
| ZeroDivisionError
| ValueError
| IndexError
| MemoryError
| SocketTimeout
| OSError.

(** The outcome of running a piece of Python: a value, a raised exception,
    or [Unfinished] when the clock readings handed to a time-bounded loop
    ran out before the loop left (the loop was still running at the end of
    the observed readings). *)
Inductive result (A : Type) : Type :=
| Ok (a : A)
| Raise (e : exn)
| Unfinished.
Arguments Ok {A} a.
Arguments Raise {A} e.
Arguments Unfinished {A}.

Definition bind {A B : Type} (m : result A) (k : A -> result B) : result B :=
  match m with
  | Ok a => k a
  | Raise e => Raise e
  | Unfinished => Unfinished
  end.

(** [a // b] on ints: floor division, [ZeroDivisionError] on [b = 0]. *)
Definition floordiv (a b : Z) : result Z :=
  if b =? 0 then Raise ZeroDivisionError else Ok (a / b).

(** [range(start, stop, step)] for a positive [step]. *)
Fixpoint range_from (len : nat) (start step : Z) : list Z :=
  match len with
  | O => []
  | S k => start :: range_from k (start + step) step
  end.

Definition range_len (start stop step : Z) : Z :=
  if stop <=? start then 0 else (stop - start + step - 1) / step.

Definition range3 (start stop step : Z) : list Z :=
  range_from (Z.to_nat (range_len start stop step)) start step.

(** [range(n)]. *)
Definition range (n : Z) : list Z := range3 0 n 1.

(** The largest int that still converts to a double is just below
    [2^1024 - 2^970]; from there on the conversion rounds to [2^1024] and
    CPython raises [OverflowError]. *)
Definition float_overflow : Z := 2 ^ 1024 - 2 ^ 970.

End Py.

Import Py.

Notation "'let!' x ':=' m 'in' k" := (bind m (fun x => k))
  (at level 10, x name, m at level 100, k at level 200).

(** [len(l)]. *)
Definition len {A : Type} (l : list A) : Z := Z.of_nat (length l).

(** ** Console output and other effects

    [print_header] and [print_status] only write to the terminal; a call is
    recorded as an [output] carrying the f-string of the source and the
    values substituted into it.  The other effects of the program (threads,
    sockets, sleeping) are recorded as [event]s next to them. *)

Inductive severity : Type := info | success | warning | error.

Inductive arg : Type :=
| AInt (z : Z)
| ATime (q : Q)
| AStr (s : string)
| AExn (e : exn).

Inductive output : Type :=
| Header (title : string)
| Status (text : string) (args : list arg) (sev : severity).

Inductive event : Type :=
| Print (o : output)
| ThreadStart (worker_id : Z)
| ThreadJoin (worker_id : Z)
| Sleep (seconds : Q)
| SocketOpen
| SocketBind (port : Z)
| SocketClose
| Connected
| Accepted
| Sent (bytes : Z)
| Received (bytes : Z).

Definition print_header (text : string) : event := Print (Header text).

Definition print_status (text : string) (args : list arg) (status : severity)
  : event := Print (Status text args status).

(** ** Time

    [time.time()] readings are rationals (seconds); a duration is the int
    the command line parsed.  [x < y] on them is [Qltb]. *)

Definition Qltb (x y : Q) : bool :=
  match (x ?= y)%Q with Lt => true | _ => false end.

(** The condition of every [while time.time() - start_time < duration]
    loop, at the reading [now]. *)
Definition within_budget (now start_time : Q) (duration : Z) : bool :=
  Qltb (now - start_time)%Q (inject_Z duration).

(** The budget has expired when the loop condition fails. *)
Definition expired (now start_time : Q) (duration : Z) : bool :=
  negb (within_budget now start_time duration).

(** ** Waiting for workers

    [pool.join()] and [worker.join()] return once no worker is running any
    more, whether it returned or raised. *)

Definition join_all {A : Type} (workers : list (result A)) : result unit :=
  if forallb (fun w => match w with Unfinished => false | _ => true end)
       workers
  then Ok tt else Unfinished.

(** ** CPU stress test *)

Section CPU.

(** [int_sqrt_float n] stands for the int that [int(n ** 0.5)] evaluates
    to once [n] has been converted to a double.  The rounding of the
    conversion and of [pow] is not modelled; the theorems say what they
    need of it. *)
Variable int_sqrt_float : Z -> Z.

(** [int(n ** 0.5)]: the int is converted to a double first, which raises
    [OverflowError] when it is out of the double range. *)
Definition int_pow_half (n : Z) : result Z :=
  if float_overflow <=? n then Raise OverflowError
  else Ok (int_sqrt_float n).

(** The [for i in range(...)] loop of [is_prime], with its early return. *)
Fixpoint trial_loop (n : Z) (candidates : list Z) : bool :=
  match candidates with
  | [] => true
  | i :: rest => if n mod i =? 0 then false else trial_loop n rest
  end.

Definition is_prime (n : Z) : result bool :=
  if n <? 2 then Ok false
  else if n =? 2 then Ok true
  else if n mod 2 =? 0 then Ok false
  else
    let! r := int_pow_half n in
    Ok (trial_loop n (range3 3 (r + 1) 2)).

(** What a CPU worker leaves behind: the value it returns, the numbers it
    handed to [is_prime] in order (kept to state what was tested), and
    what it printed. *)
Record cpu_run : Type := {
  cpu_count : Z;
  cpu_tested : list Z;
  cpu_log : list event
}.

(** The [while] loop of [cpu_worker].  [ticks] are the successive values
    of [time.time()] in the loop condition. *)
Fixpoint cpu_loop (ticks : list Q) (start_time : Q) (duration : Z)
    (count num : Z) (tested : list Z) : result (Z * list Z) :=
  match ticks with
  | [] => Unfinished
  | now :: later =>
      if within_budget now start_time duration then
        let! p := is_prime num in
        cpu_loop later start_time duration
          (if p then count + 1 else count) (num + 1) (tested ++ [num])
      else Ok (count, tested)
  end.

Definition cpu_worker (worker_id : Z) (duration : Z) (start_time : Q)
    (ticks : list Q) : result cpu_run :=
  let! r := cpu_loop ticks start_time duration 0 2 [] in
  Ok {| cpu_count := fst r;
        cpu_tested := snd r;
        cpu_log :=
          [ print_status "CPU Worker {worker_id} started"
              [AInt worker_id] success;
            print_status
              "CPU Worker {worker_id} finished - Found {count} primes"
              [AInt worker_id; AInt (fst r)] success ] |}.

(** What [stress_cpu] sees of the machine: the number of cores, the two
    readings of the clock it takes itself, and for each worker the
    readings that worker takes. *)
Record cpu_env : Type := {
  cpu_cores_available : Z;
  cpu_start_time : Q;
  cpu_end_time : Q;
  cpu_ticks : Z -> list Q
}.

(** [multiprocessing.Pool(processes=n)] refuses [n < 1]. *)
Definition Pool (processes : Z) : result unit :=
  if processes <? 1 then Raise ValueError else Ok tt.

(** The [with multiprocessing.Pool(...)] block: the list [results], one
    asynchronous result per submitted worker, each holding the worker's
    return value or the exception it raised. *)
Definition cpu_pool (env : cpu_env) (cores duration : Z)
    : result (list (result cpu_run)) :=
  let! _ := Pool cores in
  let results :=
    map (fun i => cpu_worker i duration (cpu_start_time env)
                    (cpu_ticks env i))
        (range cores) in
  let! _ := join_all results in
  Ok results.

(** [sum(r.get() for r in results)]: [get] raises again what the worker
    raised. *)
Fixpoint sum_get (results : list (result cpu_run)) (acc : Z) : result Z :=
  match results with
  | [] => Ok acc
  | r :: rest => let! run := r in sum_get rest (acc + cpu_count run)
  end.

Record cpu_report : Type := {
  cpu_results : list (result cpu_run);
  cpu_total_primes : Z;
  cpu_report_log : list event
}.

Definition stress_cpu (env : cpu_env) (cores : option Z) (duration : Z)
    : result cpu_report :=
  let cores :=
    match cores with
    | None => cpu_cores_available env
    | Some c => c
    end in
  let! results := cpu_pool env cores duration in
  let! total_primes := sum_get results 0 in
  Ok {| cpu_results := results;
        cpu_total_primes := total_primes;
        cpu_report_log :=
          [ print_header "CPU STRESS TEST";
            print_status
              "Starting CPU stress test on {cores} cores for {duration} seconds"
              [AInt cores; AInt duration] info;
            print_status "Total CPU cores available: {multiprocessing.cpu_count()}"
              [AInt (cpu_cores_available env)] info;
            print_status "CPU stress test completed in {elapsed:.2f} seconds"
              [ATime (cpu_end_time env - cpu_start_time env)%Q] success;
            print_status "Total primes found: {total_primes}"
              [AInt total_primes] info ] |}.

End CPU.

(** ** RAM stress test *)

(** A [bytearray] is a mutable sequence of ints in [0, 256). *)
Abbreviation block := (list Z).

(** [bytearray(size)]: [size] zero bytes, or [MemoryError] when the
    allocator refuses. *)
Definition bytearray (granted : bool) (size : Z) : result block :=
  if granted then Ok (replicate (Z.to_nat size) 0) else Raise MemoryError.

(** The index Python resolves [b[j]] to: negative indices count from the
    end. *)
Definition resolve_index (b : block) (j : Z) : result nat :=
  let len := Z.of_nat (length b) in
  let j' := if j <? 0 then j + len else j in
  if (0 <=? j') && (j' <? len) then Ok (Z.to_nat j') else Raise IndexError.

(** [b[j]]. *)
Definition getitem (b : block) (j : Z) : result Z :=
  let! k := resolve_index b j in
  match b !! k with
  | Some v => Ok v
  | None => Raise IndexError
  end.

(** [b[j] = v]. *)
Definition setitem (b : block) (j v : Z) : result block :=
  let! k := resolve_index b j in
  if (0 <=? v) && (v <? 256) then Ok (<[k := v]> b) else Raise ValueError.

Definition chunk_size : Z := 1024 * 1024.
Arguments chunk_size : simpl never.

(** [for j in range(0, chunk_size, 4096): block[j] = (i + j) % 256]. *)
Fixpoint write_pattern (i : Z) (offsets : list Z) (b : block) : result block :=
  match offsets with
  | [] => Ok b
  | j :: rest =>
      let! b' := setitem b j ((i + j) mod 256) in
      write_pattern i rest b'
  end.

(** The offsets the allocation phase writes to in each chunk. *)
Definition touched_offsets : list Z := range3 0 chunk_size 4096.
Arguments touched_offsets : simpl never.

(** One chunk of the allocation loop: allocate it, then write the pattern. *)
Definition new_chunk (granted : bool) (i : Z) : result block :=
  let! b := bytearray granted chunk_size in
  write_pattern i touched_offsets b.

(** The state of a RAM worker: the chunks it holds and what it has done so
    far. *)
Record ram_state : Type := {
  memory_blocks : list block;
  ram_log : list event
}.

Definition ram_emit (e : event) (st : ram_state) : ram_state :=
  {| memory_blocks := memory_blocks st; ram_log := ram_log st ++ [e] |}.

(** What a RAM worker sees of the machine: whether the allocation of chunk
    [i] is granted, the clock when it starts and the readings of its hold
    loop. *)
Record ram_env : Type := {
  ram_granted : Z -> bool;
  ram_start_time : Q;
  ram_ticks : list Q
}.

(** The allocation loop, [for i in range(num_chunks)].  It returns the state
    reached together with the exception that interrupted it, if any. *)
Fixpoint allocate_loop (worker_id : Z) (granted : Z -> bool)
    (indices : list Z) (st : ram_state) : ram_state * result unit :=
  match indices with
  | [] => (st, Ok tt)
  | i :: rest =>
      match new_chunk (granted i) i with
      | Ok b =>
          let st1 := {| memory_blocks := memory_blocks st ++ [b];
                        ram_log := ram_log st |} in
          let st2 :=
            if (i + 1) mod 100 =? 0
            then ram_emit (print_status "Worker {worker_id}: Allocated {i+1}MB"
                             [AInt worker_id; AInt (i + 1)] info) st1
            else st1 in
          allocate_loop worker_id granted rest st2
      | Raise e => (st, Raise e)
      | Unfinished => (st, Unfinished)
      end
  end.

(** [block[0] = (block[0] + 1) % 256]. *)
Definition touch (b : block) : result block :=
  let! v := getitem b 0 in
  setitem b 0 ((v + 1) mod 256).

(** [for block in memory_blocks[::10]: ...]: the slice holds the very chunks
    of [memory_blocks], so the update shows in [memory_blocks].  [skip] is
    the number of chunks to pass over before the next one of the slice. *)
Fixpoint touch_every_10th (skip : nat) (blocks : list block)
    : result (list block) :=
  match blocks with
  | [] => Ok []
  | b :: rest =>
      match skip with
      | O =>
          let! b' := touch b in
          let! rest' := touch_every_10th 9 rest in
          Ok (b' :: rest')
      | S k =>
          let! rest' := touch_every_10th k rest in
          Ok (b :: rest')
      end
  end.

(** The hold loop, [while time.time() - start_time < duration]. *)
Fixpoint hold_loop (ticks : list Q) (start_time : Q) (duration : Z)
    (st : ram_state) : ram_state * result unit :=
  match ticks with
  | [] => (st, Unfinished)
  | now :: later =>
      if within_budget now start_time duration then
        match touch_every_10th 0 (memory_blocks st) with
        | Ok blocks =>
            hold_loop later start_time duration
              {| memory_blocks := blocks;
                 ram_log := ram_log st ++ [Sleep (1 # 10)] |}
        | Raise e => (st, Raise e)
        | Unfinished => (st, Unfinished)
        end
      else (st, Ok tt)
  end.

(** The last message of the [try] statement of [ram_worker]. *)
Definition ram_finished (worker_id : Z) : event :=
  print_status "RAM Worker {worker_id} finished" [AInt worker_id] success.

(** The body of the [try] statement of [ram_worker]. *)
Definition ram_try (worker_id size_mb duration : Z) (env : ram_env)
    (st : ram_state) : ram_state * result unit :=
  let num_chunks := size_mb in
  match allocate_loop worker_id (ram_granted env) (range num_chunks) st with
  | (st1, Ok _) =>
      let st2 :=
        ram_emit (print_status
                    "Worker {worker_id}: Successfully allocated {size_mb}MB"
                    [AInt worker_id; AInt size_mb] success) st1 in
      match hold_loop (ram_ticks env) (ram_start_time env) duration st2 with
      | (st3, Ok _) => (ram_emit (ram_finished worker_id) st3, Ok tt)
      | other => other
      end
  | other => other
  end.

(** The message of the [except MemoryError] clause. *)
Definition allocation_failed (worker_id : Z) : event :=
  print_status "Worker {worker_id}: Memory allocation failed!"
    [AInt worker_id] error.

(** [ram_worker]: the [try] body, then the [except] clauses.  The worker
    returns nothing; the state it ends in is kept here to speak about it. *)
Definition ram_worker (worker_id size_mb duration : Z) (env : ram_env)
    : result ram_state :=
  let st0 :=
    {| memory_blocks := [];
       ram_log :=
         [ print_status
             "RAM Worker {worker_id} started - Allocating {size_mb}MB"
             [AInt worker_id; AInt size_mb] success ] |} in
  match ram_try worker_id size_mb duration env st0 with
  | (st, Ok _) => Ok st
  | (st, Raise MemoryError) => Ok (ram_emit (allocation_failed worker_id) st)
  | (st, Raise e) =>
      Ok (ram_emit (print_status "Worker {worker_id}: Error - {e}"
                      [AInt worker_id; AExn e] error) st)
  | (_, Unfinished) => Unfinished
  end.

(** The bytes held in a list of chunks, and the bytes a worker holds. *)
Definition byte_count (blocks : list block) : Z :=
  fold_right (fun b acc => Z.of_nat (length b) + acc) 0 blocks.

Definition allocated_bytes (st : ram_state) : Z :=
  byte_count (memory_blocks st).

(** Every chunk held is a whole chunk. *)
Definition full_chunks (blocks : list block) : Prop :=
  Forall (fun b => len b = chunk_size) blocks.

(** Whether the worker ever reached the sleep of its hold phase. *)
Definition slept (st : ram_state) : bool :=
  existsb (fun e => match e with Sleep _ => true | _ => false end) (ram_log st).

Record ram_report : Type := {
  ram_spawned : list (Z * Z * Z);
  ram_workers : list (result ram_state);
  ram_report_log : list event
}.

(** [stress_ram].  [envs i] is what worker [i] sees of the machine. *)
Definition stress_ram (envs : Z -> ram_env) (size_mb duration threads : Z)
    : result ram_report :=
  let! size_per_thread := floordiv size_mb threads in
  let spawned :=
    map (fun i => (i, size_per_thread, duration)) (range threads) in
  let workers :=
    map (fun '(i, size, d) => ram_worker i size d (envs i)) spawned in
  let! _ := join_all workers in
  Ok {| ram_spawned := spawned;
        ram_workers := workers;
        ram_report_log :=
          [ print_header "RAM STRESS TEST";
            print_status
              "Starting RAM stress test: {size_mb}MB total for {duration} seconds"
              [AInt size_mb; AInt duration] info;
            print_status "Using {threads} threads" [AInt threads] info ]
          ++ map (fun '(i, _, _) => ThreadStart i) spawned
          ++ map (fun '(i, _, _) => ThreadJoin i) spawned
          ++ [ print_status "RAM stress test completed" [] success ] |}.

(** ** Network stress test *)

(** The server's view of the network: what [recv] and [sendall] do on an
    accepted connection, and what [accept] does. *)
Inductive recv_step : Type :=
| RecvData (bytes : Z) (echo : result unit)
| RecvEnd
| RecvRaises (e : exn).

Inductive accept_step : Type :=
| AcceptRaises (e : exn)
| AcceptOk (addr : string) (reads : list recv_step) (close : result unit).

Record server_env : Type := {
  srv_bind : result unit;
  srv_start_time : Q;
  srv_rounds : list (Q * accept_step)
}.

Record server_state : Type := {
  bytes_received : Z;
  connections : Z;
  srv_log : list event
}.

Definition srv_emit (es : list event) (st : server_state) : server_state :=
  {| bytes_received := bytes_received st;
     connections := connections st;
     srv_log := srv_log st ++ es |}.

(** The [while True] loop over one accepted connection. *)
Fixpoint serve_connection (reads : list recv_step) (st : server_state)
    : server_state * result unit :=
  match reads with
  | [] => (st, Unfinished)
  | RecvEnd :: _ => (st, Ok tt)
  | RecvRaises e :: _ => (st, Raise e)
  | RecvData n echo :: rest =>
      let st1 :=
        {| bytes_received := bytes_received st + n;
           connections := connections st;
           srv_log := srv_log st ++ [Received n] |} in
      match echo with
      | Ok _ => serve_connection rest (srv_emit [Sent n] st1)
      | Raise e => (st1, Raise e)
      | Unfinished => (st1, Unfinished)
      end
  end.

(** The body of the inner [try] of [network_server]. *)
Definition serve_one (step : accept_step) (st : server_state)
    : server_state * result unit :=
  match step with
  | AcceptRaises e => (st, Raise e)
  | AcceptOk addr reads close =>
      let st1 :=
        {| bytes_received := bytes_received st;
           connections := connections st + 1;
           srv_log :=
             srv_log st ++
             [ Accepted;
               print_status "Connection #{connections} from {addr}"
                 [AInt (connections st + 1); AStr addr] info ] |} in
      match serve_connection reads st1 with
      | (st2, Ok _) =>
          match close with
          | Ok _ => (srv_emit [SocketClose] st2, Ok tt)
          | other => (st2, other)
          end
      | other => other
      end
  end.

(** The accept loop with its two [except] clauses. *)
Fixpoint accept_loop (rounds : list (Q * accept_step)) (start_time : Q)
    (duration : Z) (st : server_state) : server_state * result unit :=
  match rounds with
  | [] => (st, Unfinished)
  | (now, step) :: later =>
      if within_budget now start_time duration then
        match serve_one step st with
        | (st1, Ok _) => accept_loop later start_time duration st1
        | (st1, Raise SocketTimeout) =>
            accept_loop later start_time duration st1
        | (st1, Raise e) =>
            accept_loop later start_time duration
              (srv_emit [print_status "Server error: {e}" [AExn e] error] st1)
        | (st1, Unfinished) => (st1, Unfinished)
        end
      else (st, Ok tt)
  end.

Definition network_server (env : server_env) (host : string)
    (port duration : Z) : result server_state :=
  let st0 :=
    {| bytes_received := 0;
       connections := 0;
       srv_log :=
         [ print_status "Starting network server on {host}:{port}"
             [AStr host; AInt port] info;
           SocketOpen;
           SocketBind port ] |} in
  let! _ := srv_bind env in
  let st1 :=
    srv_emit [print_status "Server listening on {host}:{port}"
                [AStr host; AInt port] success] st0 in
  match accept_loop (srv_rounds env) (srv_start_time env) duration st1 with
  | (st2, Ok _) =>
      Ok (srv_emit
            [ SocketClose;
              print_status
                "Server finished - {connections} connections, {bytes_received/1024/1024:.2f}MB received"
                [AInt (connections st2); AInt (bytes_received st2)] success ]
            st2)
  | (_, Raise e) => Raise e
  | (_, Unfinished) => Unfinished
  end.

(** The client's view of the network: for one connection attempt, whether
    [connect] succeeds, what the [k]-th send and receive do, and whether
    [close] succeeds. *)
Inductive round_step : Type :=
| RoundOk
| SendRaises (e : exn)
| EchoRaises (e : exn).

Record attempt : Type := {
  att_connect : result unit;
  att_round : Z -> round_step;
  att_close : result unit
}.

Record client_env : Type := {
  cl_start_time : Q;
  cl_rounds : list (Q * attempt)
}.

(** The two counters of a client, the values they went through (one entry
    per assignment to either of them, the latest first), and what the
    client did. *)
Record client_state : Type := {
  bytes_sent : Z;
  requests : Z;
  history : list (Z * Z);
  cl_log : list event
}.

Definition cl_emit (es : list event) (st : client_state) : client_state :=
  {| bytes_sent := bytes_sent st;
     requests := requests st;
     history := history st;
     cl_log := cl_log st ++ es |}.

(** [data = b"X" * 1024]. *)
Definition data : list Byte.byte := replicate 1024 Byte.x58.

(** [bytes_sent += len(data)]. *)
Definition count_bytes (st : client_state) : client_state :=
  {| bytes_sent := bytes_sent st + len data;
     requests := requests st;
     history := (bytes_sent st + len data, requests st) :: history st;
     cl_log := cl_log st ++ [Sent (len data)] |}.

(** [requests += 1]. *)
Definition count_request (st : client_state) : client_state :=
  {| bytes_sent := bytes_sent st;
     requests := requests st + 1;
     history := (bytes_sent st, requests st + 1) :: history st;
     cl_log := cl_log st |}.

(** [for _ in range(100)]: send, count the bytes, read the echo. *)
Fixpoint send_loop (rounds : list Z) (round : Z -> round_step)
    (st : client_state) : client_state * result unit :=
  match rounds with
  | [] => (st, Ok tt)
  | k :: rest =>
      match round k with
      | SendRaises e => (st, Raise e)
      | EchoRaises e => (count_bytes st, Raise e)
      | RoundOk => send_loop rest round (cl_emit [Received (len data)] (count_bytes st))
      end
  end.

(** The body of the inner [try] of [network_client]. *)
Definition client_attempt (worker_id : Z) (a : attempt) (st : client_state)
    : client_state * result unit :=
  let st0 := cl_emit [SocketOpen] st in
  match att_connect a with
  | Ok _ =>
      match send_loop (range 100) (att_round a) (cl_emit [Connected] st0) with
      | (st1, Ok _) =>
          let st2 := count_request st1 in
          match att_close a with
          | Ok _ =>
              let st3 := cl_emit [SocketClose] st2 in
              let st4 :=
                if requests st3 mod 10 =? 0
                then cl_emit
                       [print_status
                          "Client {worker_id}: {requests} requests, {bytes_sent/1024/1024:.2f}MB sent"
                          [AInt worker_id; AInt (requests st3);
                           AInt (bytes_sent st3)] info] st3
                else st3 in
              (cl_emit [Sleep (1 # 10)] st4, Ok tt)
          | other => (st2, other)
          end
      | other => other
      end
  | other => (st0, other)
  end.

(** The outer loop of [network_client] with its [except] clause. *)
Fixpoint client_loop (rounds : list (Q * attempt)) (start_time : Q)
    (duration worker_id : Z) (st : client_state)
    : client_state * result unit :=
  match rounds with
  | [] => (st, Unfinished)
  | (now, a) :: later =>
      if within_budget now start_time duration then
        match client_attempt worker_id a st with
        | (st1, Ok _) => client_loop later start_time duration worker_id st1
        | (st1, Raise e) =>
            client_loop later start_time duration worker_id
              (cl_emit [ print_status "Client {worker_id} error: {e}"
                           [AInt worker_id; AExn e] error;
                         Sleep 1 ] st1)
        | (st1, Unfinished) => (st1, Unfinished)
        end
      else (st, Ok tt)
  end.

(** [network_client].  The state is returned in every case, so that the
    counters of a client that is still running can be spoken about. *)
Definition network_client (env : client_env) (host : string)
    (port duration worker_id : Z) : client_state * result unit :=
  let st0 :=
    {| bytes_sent := 0;
       requests := 0;
       history := [(0, 0)];
       cl_log := [ print_status "Client Worker {worker_id} started"
                     [AInt worker_id] success ] |} in
  match client_loop (cl_rounds env) (cl_start_time env) duration worker_id st0
  with
  | (st, Unfinished) => (st, Unfinished)
  | (st, r) =>
      (cl_emit
         [print_status
            "Client Worker {worker_id} finished - {requests} requests, {bytes_sent/1024/1024:.2f}MB sent"
            [AInt worker_id; AInt (requests st); AInt (bytes_sent st)] success]
         st, r)
  end.

Record net_env : Type := {
  net_server_env : server_env;
  net_client_env : Z -> client_env
}.

Record net_report : Type := {
  net_log : list event;
  net_server : option server_state;
  net_clients : list client_state
}.

(** The message of the last branch of [stress_network]. *)
Definition invalid_mode : event :=
  print_status "Invalid network mode. Use 'server' or 'client'" [] error.

Definition stress_network (env : net_env) (mode host : string)
    (port duration clients : Z) : result net_report :=
  let header := print_header "NETWORK STRESS TEST" in
  if String.eqb mode "server" then
    let! st := network_server (net_server_env env) host port duration in
    Ok {| net_log := [header]; net_server := Some st; net_clients := [] |}
  else if String.eqb mode "client" then
    let workers :=
      map (fun i => network_client (net_client_env env i) host port duration i)
          (range clients) in
    let! _ := join_all (map snd workers) in
    Ok {| net_log :=
            [ header;
              print_status
                "Starting {clients} client workers connecting to {host}:{port}"
                [AInt clients; AStr host; AInt port] info ]
            ++ flat_map (fun i => [ThreadStart i; Sleep (1 # 2)]) (range clients)
            ++ map ThreadJoin (range clients)
            ++ [ print_status "Network stress test completed" [] success ];
          net_server := None;
          net_clients := map fst workers |}
  else
    Ok {| net_log := [header; invalid_mode];
          net_server := None;
          net_clients := [] |}.

(** Everything a network run did: its own effects and those of the server
    or of the clients it ran. *)
Definition net_events (r : net_report) : list event :=
  net_log r
  ++ match net_server r with Some st => srv_log st | None => [] end
  ++ flat_map cl_log (net_clients r).

(** The effects that count as work: a thread, a socket, a transfer. *)
Definition is_work (e : event) : bool :=
  match e with
  | Print _ | Sleep _ => false
  | _ => true
  end.

(** Whether [if is_prime(num)] takes the branch that counts [num]. *)
Definition counts_as_prime (f : Z -> Z) (n : Z) : bool :=
  match is_prime f n with
  | Ok true => true
  | _ => false
  end.

(** Whether a worker has come to an end, by returning or by raising. *)
Definition ended {A : Type} (w : result A) : Prop := w <> Unfinished.

(** The clock of a worker reaches the end of the budget. *)
Definition deadline_reached (ticks : list Q) (start_time : Q) (duration : Z)
  : Prop :=
  Exists (fun now => expired now start_time duration = true) ticks.

(** The MB [stress_ram] asked its workers for, all together. *)
Definition requested_mb (r : ram_report) : Z :=
  fold_right (fun '(_, size, _) acc => size + acc) 0 (ram_spawned r).

(** The bytes the workers of a RAM run held, all together. *)
Definition total_allocated (r : ram_report) : Z :=
  fold_right
    (fun w acc => match w with Ok st => allocated_bytes st + acc | _ => acc end)
    0 (ram_workers r).

(** ** Sample environments

    A machine that grants every allocation and whose clock has passed 61
    seconds at the first reading of every loop. *)

Definition sample_ram_env : ram_env :=
  {| ram_granted := fun _ => true;
     ram_start_time := 0;
     ram_ticks := [61%Q] |}.

Definition sample_cpu_env : cpu_env :=
  {| cpu_cores_available := 4;
     cpu_start_time := 0;
     cpu_end_time := 61;
     cpu_ticks := fun _ => [61%Q] |}.

(** A pair of client counters [(bytes_sent, requests)] in which every
    counted request is covered by its 100 KiB. *)
Definition covered (counters : Z * Z) : Prop :=
  102400 * snd counters <= fst counters.

(** The counters of a client are covered, now and at every earlier point,
    and the latest entry of the history is the present. *)
Definition client_invariant (st : client_state) : Prop :=
  covered (bytes_sent st, requests st) /\
  Forall covered (history st) /\
  head (history st) = Some (bytes_sent st, requests st).

(** A connection attempt on which nothing fails. *)
Definition smooth_attempt : attempt :=
  {| att_connect := Ok tt;
     att_round := fun _ => RoundOk;
     att_close := Ok tt |}.

(** A client that has not sent anything yet. *)
Definition fresh_client : client_state :=
  {| bytes_sent := 0; requests := 0; history := [(0, 0)]; cl_log := [] |}.

(** A network on which the server can bind and nothing else is observed. *)
Definition sample_net_env : net_env :=
  {| net_server_env :=
       {| srv_bind := Ok tt; srv_start_time := 0; srv_rounds := [] |};
     net_client_env := fun _ => {| cl_start_time := 0; cl_rounds := [] |} |}.

(** The primality test as the specification words it: below 2 not prime, 2
    prime, even not prime, otherwise prime exactly when no odd number from 3
    to the integer square root (inclusive) divides [n]. *)
Definition trial_division_prime (n : Z) : Prop :=
  2 <= n /\
  (n = 2 \/
   (n mod 2 <> 0 /\
    forall d, 3 <= d <= Z.sqrt n -> d mod 2 = 1 -> n mod d <> 0)).

(** Whether an int is a prime number, by looking for a divisor among all the
    numbers between 1 and it. *)
Definition primeb (n : Z) : bool :=
  (1 <? n) && forallb (fun d => negb (n mod d =? 0)) (range3 2 n 1).

(** ** What a chunk holds

    The byte expected at offset [j] of chunk [c] after [k] rounds of the hold
    loop: the first byte of every 10th chunk has been incremented [k] times,
    the other offsets that are multiples of 4096 hold the pattern, the rest
    is zero. *)
Definition first_byte (c k : Z) : Z :=
  if c mod 10 =? 0 then (c + k) mod 256 else c mod 256.

Definition expected_byte (c j k : Z) : Z :=
  if j =? 0 then first_byte c k
  else if j mod 4096 =? 0 then c mod 256
  else 0.

(** The block [b] is chunk [c] with [first] as its first byte. *)
Definition chunk_holds (c first : Z) (b : block) : Prop :=
  len b = chunk_size /\
  forall j, 0 <= j < chunk_size ->
    b !! Z.to_nat j
    = Some (if j =? 0 then first
            else if j mod 4096 =? 0 then c mod 256 else 0).

(** The chunks [blocks] are the chunks 0, 1, ... after [k] rounds of the
    hold loop. *)
Definition chunks_after (k : Z) (blocks : list block) : Prop :=
  forall c : nat, (c < length blocks)%nat ->
    exists b, blocks !! c = Some b /\
              chunk_holds (Z.of_nat c) (first_byte (Z.of_nat c) k) b.

(** The number of times the worker slept. *)
Definition sleeps (log : list event) : Z :=
  len (List.filter (fun e => match e with Sleep _ => true | _ => false end) log).

(** ** Reading a log *)

(** The bytes a log shows as received, as sent, and the connections it shows
    as accepted. *)
Definition received_total (log : list event) : Z :=
  fold_right (fun e acc => match e with Received n => n + acc | _ => acc end)
    0 log.

Definition sent_total (log : list event) : Z :=
  fold_right (fun e acc => match e with Sent n => n + acc | _ => acc end)
    0 log.

Definition accepted_count (log : list event) : Z :=
  len (List.filter (fun e => match e with Accepted => true | _ => false end) log).

(** The counters of a server agree with what its log shows. *)
Definition server_invariant (st : server_state) : Prop :=
  bytes_received st = received_total (srv_log st) /\
  connections st = accepted_count (srv_log st).

(** The server has sent back as many bytes as it received. *)
Definition echoed (st : server_state) : Prop :=
  sent_total (srv_log st) = received_total (srv_log st).

(** The sockets a log shows as opened: one per connection attempt of a
    client. *)
Definition opened_count (log : list event) : Z :=
  len (List.filter (fun e => match e with SocketOpen => true | _ => false end)
         log).

(** The progress message of the allocation loop. *)
Definition allocated_so_far (worker_id mb : Z) : event :=
  print_status "Worker {worker_id}: Allocated {i+1}MB"
    [AInt worker_id; AInt mb] info.

(** The message that closes the allocation phase. *)
Definition allocation_done (worker_id size_mb : Z) : event :=
  print_status "Worker {worker_id}: Successfully allocated {size_mb}MB"
    [AInt worker_id; AInt size_mb] success.

(** The server never fails to echo on this connection step. *)
Definition echo_succeeds (step : accept_step) : Prop :=
  match step with
  | AcceptRaises _ => True
  | AcceptOk _ reads _ =>
      Forall (fun r => match r with
                       | RecvData _ (Ok _) => True
                       | RecvData _ _ => False
                       | _ => True
                       end) reads
  end.

(** Nothing fails on this connection attempt of a client. *)
Definition smooth (a : attempt) : Prop :=
  att_connect a = Ok tt /\
  (forall k, 0 <= k < 100 -> att_round a k = RoundOk) /\
  att_close a = Ok tt.

(** ** The command line

    [main] after [parser.parse_args()]: the namespace holds the subcommand
    and its arguments, defaults filled in.  [--mode] is declared with
    [choices=['server', 'client']]; on any other value [parse_args] reports
    the error and exits with status 2 before anything runs. *)

Inductive namespace : Type :=
| NoTestType
| CpuArgs (cores : option Z) (duration : Z)
| RamArgs (size duration threads : Z)
| NetworkArgs (mode host : string) (port duration clients : Z).

Record machine : Type := {
  machine_cpu : cpu_env;
  machine_ram : Z -> ram_env;
  machine_net : net_env
}.

Inductive report : Type :=
| CpuReport (r : cpu_report)
| RamReport (r : ram_report)
| NetReport (r : net_report).

(** How the process ends: its exit status, the report of the test that ran
    to its end, if any, and the error [main] printed, if any. *)
Record exit : Type := {
  exit_status : Z;
  exit_report : option report;
  exit_error : option event
}.

Definition mode_choices : list string := ["server"; "client"]%string.

(** The [try] statement of [main] around a test: a test that returns lets
    [main] fall off its end, status 0; an exception is printed and the
    status is 1.  An interrupt from the keyboard is not among the exceptions
    of [exn], so the clause that catches it has nothing to catch here. *)
Definition run_test {A : Type} (wrap : A -> report) (test : result A)
    : result exit :=
  match test with
  | Ok r =>
      Ok {| exit_status := 0; exit_report := Some (wrap r);
            exit_error := None |}
  | Raise e =>
      Ok {| exit_status := 1; exit_report := None;
            exit_error := Some (print_status "Error: {e}" [AExn e] error) |}
  | Unfinished => Unfinished
  end.

Definition main (f : Z -> Z) (m : machine) (args : namespace) : result exit :=
  match args with
  | NoTestType =>
      Ok {| exit_status := 1; exit_report := None; exit_error := None |}
  | CpuArgs cores duration =>
      run_test CpuReport (stress_cpu f (machine_cpu m) cores duration)
  | RamArgs size duration threads =>
      run_test RamReport (stress_ram (machine_ram m) size duration threads)
  | NetworkArgs mode host port duration clients =>
      if existsb (String.eqb mode) mode_choices then
        run_test NetReport
          (stress_network (machine_net m) mode host port duration clients)
      else
        Ok {| exit_status := 2; exit_report := None; exit_error := None |}
  end.

(** ** Facts about [range] *)

Lemma range_from_spec (len : nat) (start step x : Z) :
  In x (range_from len start step) <->
  exists k, 0 <= k < Z.of_nat len /\ x = start + k * step.
Proof.
  revert start. induction len as [|len IH]; intros start; simpl.
  - split; [tauto | intros (k & Hk & _); lia].
  - rewrite IH. split.
    + intros [<- | (k & Hk & ->)].
      * exists 0. lia.
      * exists (k + 1). lia.
    + intros (k & Hk & ->).
      destruct (Z.eq_dec k 0) as [-> | Hne].
      * left. lia.
      * right. exists (k - 1). lia.
Qed.

Lemma range3_spec (start stop step x : Z) :
  0 < step ->
  In x (range3 start stop step) <->
  exists k, 0 <= k /\ x = start + k * step /\ x < stop.
Proof.
  intros Hstep. unfold range3, range_len. rewrite range_from_spec.
  destruct (Z.leb_spec stop start) as [Hle | Hlt].
  - simpl. split; intros (k & Hk); nia.
  - assert (Hq : 0 <= (stop - start + step - 1) / step)
      by (apply Z.div_pos; lia).
    rewrite Z2Nat.id by exact Hq.
    pose proof (Z.div_mod (stop - start + step - 1) step ltac:(lia)) as Hdm.
    pose proof (Z.mod_pos_bound (stop - start + step - 1) step Hstep) as Hmb.
    split.
    + intros (k & Hk & ->). exists k. split; [lia|]. split; [reflexivity|]. nia.
    + intros (k & Hk & -> & Hlt'). exists k. split; [|reflexivity]. nia.
Qed.

Lemma trial_loop_true (n : Z) (candidates : list Z) :
  trial_loop n candidates = true <->
  forall i, In i candidates -> n mod i <> 0.
Proof.
  induction candidates as [|c rest IH]; simpl.
  - split; [intros _ i [] | reflexivity].
  - destruct (Z.eqb_spec (n mod c) 0) as [Hz | Hnz].
    + split; [discriminate | intros H; exfalso; apply (H c); auto].
    + rewrite IH. split.
      * intros H i [<- | Hi]; auto.
      * intros H i Hi. apply H. auto.
Qed.

(** ** The primality test *)

Lemma is_prime_small (f : Z -> Z) (n : Z) :
  n < 2 -> is_prime f n = Ok false.
Proof.
  intros H. unfold is_prime.
  destruct (Z.ltb_spec n 2); [reflexivity | lia].
Qed.

Lemma is_prime_even (f : Z -> Z) (n : Z) :
  2 < n -> n mod 2 = 0 -> is_prime f n = Ok false.
Proof.
  intros H2 Hev. unfold is_prime.
  destruct (Z.ltb_spec n 2); [lia|].
  destruct (Z.eqb_spec n 2); [lia|].
  rewrite Hev. reflexivity.
Qed.

Lemma is_prime_odd (f : Z -> Z) (n : Z) :
  2 < n -> n mod 2 <> 0 -> n < float_overflow ->
  is_prime f n = Ok (trial_loop n (range3 3 (f n + 1) 2)).
Proof.
  intros H2 Hodd Hfl. unfold is_prime, int_pow_half.
  destruct (Z.ltb_spec n 2); [lia|].
  destruct (Z.eqb_spec n 2); [lia|].
  destruct (Z.eqb_spec (n mod 2) 0); [contradiction|].
  destruct (Z.leb_spec float_overflow n); [lia|].
  reflexivity.
Qed.

(** The candidates of the loop are the odd numbers from 3 to the bound. *)
Lemma odd_candidates (bound d : Z) :
  In d (range3 3 (bound + 1) 2) <-> 3 <= d <= bound /\ d mod 2 = 1.
Proof.
  rewrite range3_spec by lia. split.
  - intros (k & Hk & -> & Hlt). split; [lia|].
    replace (3 + k * 2) with (1 + (k + 1) * 2) by lia.
    rewrite Z.mod_add by lia. reflexivity.
  - intros [Hd Hodd]. exists ((d - 3) / 2).
    pose proof (Z.div_mod d 2 ltac:(lia)) as Hdm. rewrite Hodd in Hdm.
    assert (Hq : (d - 3) / 2 = d / 2 - 1).
    { replace (d - 3) with (2 * (d / 2 - 1)) by lia.
      rewrite Z.mul_comm, Z.div_mul by lia. reflexivity. }
    rewrite Hq. lia.
Qed.

Lemma is_prime_total (f : Z -> Z) (n : Z) :
  n < float_overflow -> exists b, is_prime f n = Ok b.
Proof.
  intros Hfl.
  destruct (Z.lt_ge_cases n 2) as [Hlt | Hge].
  - exists false. apply is_prime_small, Hlt.
  - destruct (Z.eq_dec n 2) as [-> | Hne]; [exists true; reflexivity|].
    destruct (Z.eq_dec (n mod 2) 0) as [Hev | Hodd].
    + exists false. apply is_prime_even; [lia | exact Hev].
    + eexists. apply is_prime_odd; [lia | exact Hodd | exact Hfl].
Qed.

(** ** The time budget *)

Lemma Qltb_lt (x y : Q) : Qltb x y = true <-> (x < y)%Q.
Proof.
  unfold Qltb. rewrite Qlt_alt.
  destruct (x ?= y)%Q; split; intros H; try reflexivity; discriminate.
Qed.

Lemma Qltb_ge (x y : Q) : Qltb x y = false <-> (y <= x)%Q.
Proof.
  rewrite <- not_true_iff_false, Qltb_lt. split.
  - apply Qnot_lt_le.
  - apply Qle_not_lt.
Qed.

Lemma expired_iff (now start_time : Q) (duration : Z) :
  expired now start_time duration = true <->
  (inject_Z duration <= now - start_time)%Q.
Proof.
  unfold expired, within_budget. rewrite negb_true_iff. apply Qltb_ge.
Qed.

Lemma within_budget_iff (now start_time : Q) (duration : Z) :
  within_budget now start_time duration = true <->
  (now - start_time < inject_Z duration)%Q.
Proof. apply Qltb_lt. Qed.

(** Where [int(n ** 0.5)] yields the integer square root of [n] -- and for
    every [n] below 3 or even, where the square root is not taken --
    [is_prime n] returns a Boolean that agrees with the trial-division
    wording of the specification. *)
Lemma is_prime_trial_division (f : Z -> Z) :
  (forall n,
     n < 3 \/ n mod 2 = 0 \/ (n < float_overflow /\ f n = Z.sqrt n) ->
     exists b, is_prime f n = Ok b /\ (b = true <-> trial_division_prime n)) /\
  is_prime f 2 = Ok true /\
  is_prime f 1 = Ok false /\
  (f 9 = 3 -> is_prime f 9 = Ok false) /\
  (f 97 = 9 -> is_prime f 97 = Ok true).
Proof.
  split; [|split; [reflexivity|split; [reflexivity|split]]].
  - intros n Hn. unfold trial_division_prime.
    destruct (Z.lt_ge_cases n 2) as [Hlt | Hge].
    { exists false. split; [apply is_prime_small, Hlt|].
      split; [discriminate | lia]. }
    destruct (Z.eq_dec n 2) as [-> | Hne].
    { exists true. split; [reflexivity|]. split; [lia | reflexivity]. }
    destruct (Z.eq_dec (n mod 2) 0) as [Hev | Hodd].
    { exists false. split; [apply is_prime_even; [lia | exact Hev]|].
      split; [discriminate|]. intros [_ [-> | [Hodd _]]]; [lia | contradiction]. }
    destruct Hn as [Hn | [Hn | [Hfl Hsqrt]]]; [lia | contradiction |].
    eexists. split; [apply is_prime_odd; [lia | exact Hodd | exact Hfl]|].
    rewrite trial_loop_true, Hsqrt. split.
    + intros H. split; [lia|]. right. split; [exact Hodd|].
      intros d Hd Hdodd. apply H, odd_candidates. split; assumption.
    + intros [_ [-> | [_ H]]]; [lia|].
      intros i Hi. apply odd_candidates in Hi as [Hi Hiodd]. apply H; assumption.
  - intros H9. unfold is_prime, int_pow_half. simpl. rewrite H9. reflexivity.
  - intros H97. unfold is_prime, int_pow_half. simpl. rewrite H97. reflexivity.
Qed.

Lemma is_prime_trial_division_exact :
  (exists b, is_prime Z.sqrt 97 = Ok b /\
             (b = true <-> trial_division_prime 97)) /\
  is_prime Z.sqrt 9 = Ok false /\
  is_prime Z.sqrt 97 = Ok true.
Proof.
  destruct (is_prime_trial_division Z.sqrt) as (Hall & _ & _ & H9 & H97).
  split; [|split].
  - apply Hall. right. right. split; [reflexivity | reflexivity].
  - apply H9. reflexivity.
  - apply H97. reflexivity.
Qed.

(** C2 fails on the code for ints beyond the range of a double: the bound of
    the loop is [int(n ** 0.5)], the int is converted to a float to take the
    power, and for the odd int [2 ^ 1024 + 1] that conversion raises
    [OverflowError], whatever the float arithmetic does elsewhere; [is_prime]
    gives no answer there, where trial division says what the answer is. *)
Theorem is_prime_overflows (f : Z -> Z) :
  is_prime f (2 ^ 1024 + 1) = Raise OverflowError.
Proof.
  unfold is_prime, int_pow_half.
  replace (2 ^ 1024 + 1 <? 2) with false by (vm_compute; reflexivity).
  replace (2 ^ 1024 + 1 =? 2) with false by (vm_compute; reflexivity).
  replace ((2 ^ 1024 + 1) mod 2 =? 0) with false by (vm_compute; reflexivity).
  replace (float_overflow <=? 2 ^ 1024 + 1) with true
    by (vm_compute; reflexivity).
  reflexivity.
Qed.

(** C4: the budget is expired exactly when [now - start >= duration]; right
    at the start it is not expired for a positive duration and it is expired
    for a zero duration. *)
Theorem expired_spec (start_time : Q) (duration : Z) :
  (forall now,
     expired now start_time duration = true <->
     (inject_Z duration <= now - start_time)%Q) /\
  (0 < duration -> expired start_time start_time duration = false) /\
  (duration = 0 -> expired start_time start_time duration = true) /\
  (forall now,
     (start_time + inject_Z duration <= now)%Q ->
     expired now start_time duration = true).
Proof.
  split; [intros now; apply expired_iff|]. split; [|split].
  - intros Hpos. apply not_true_iff_false. rewrite expired_iff.
    assert (H : (0 < inject_Z duration)%Q).
    { change 0%Q with (inject_Z 0). rewrite <- Zlt_Qlt. exact Hpos. }
    lra.
  - intros ->. apply expired_iff. change (inject_Z 0) with 0%Q. lra.
  - intros now H. apply expired_iff. lra.
Qed.

Lemma expired_spec_witness :
  expired 5 5 3 = false /\ expired 5 5 0 = true /\ expired 8 5 3 = true.
Proof.
  destruct (expired_spec 5 3) as (_ & Hpos & _ & Hlate).
  destruct (expired_spec 5 0) as (_ & _ & Hzero & _).
  split; [|split].
  - apply Hpos. lia.
  - apply Hzero. reflexivity.
  - apply Hlate. vm_compute. discriminate.
Defined.

(** ** More on [range] *)

Lemma range3_unit (a k : Z) :
  0 <= k -> range3 a (a + k) 1 = range_from (Z.to_nat k) a 1.
Proof.
  intros Hk. unfold range3, range_len.
  destruct (Z.leb_spec (a + k) a) as [Hle | Hlt].
  - replace k with 0 by lia. reflexivity.
  - rewrite Z.div_1_r. f_equal. f_equal. lia.
Qed.

Lemma range_unit (n : Z) : 0 <= n -> range n = range_from (Z.to_nat n) 0 1.
Proof. intros Hn. unfold range. apply (range3_unit 0 n Hn). Qed.

Lemma length_range_from (k : nat) (a s : Z) : length (range_from k a s) = k.
Proof. revert a. induction k as [|k IH]; intros a; simpl; [|rewrite IH]; reflexivity. Qed.

Lemma len_range (n : Z) : 0 <= n -> len (range n) = n.
Proof.
  intros Hn. unfold len. rewrite range_unit, length_range_from by exact Hn. lia.
Qed.

Lemma in_range (n i : Z) : In i (range n) <-> 0 <= i < n.
Proof.
  unfold range. rewrite range3_spec by lia. split.
  - intros (k & Hk & -> & Hlt). lia.
  - intros Hi. exists i. lia.
Qed.

Lemma range_nonpos (n : Z) : n <= 0 -> range n = [].
Proof.
  intros Hn. unfold range, range3, range_len.
  destruct (Z.leb_spec n 0); [reflexivity | lia].
Qed.

(** ** The CPU worker *)

Lemma is_prime_ended (f : Z -> Z) (n : Z) : ended (is_prime f n).
Proof.
  unfold ended, is_prime, int_pow_half.
  repeat match goal with |- context [if ?c then _ else _] => destruct c end;
    simpl; discriminate.
Qed.

Lemma cpu_loop_runs (f : Z -> Z) (start_time : Q) (duration : Z)
    (pre : list Q) (now : Q) (post : list Q) :
  forall count num tested,
    Forall (fun t => within_budget t start_time duration = true) pre ->
    expired now start_time duration = true ->
    num + len pre <= float_overflow ->
    cpu_loop f (pre ++ now :: post) start_time duration count num tested =
    Ok (count + len (List.filter (counts_as_prime f)
                       (range_from (length pre) num 1)),
        tested ++ range_from (length pre) num 1).
Proof.
  induction pre as [|t pre IH]; intros count num tested Hpre Hnow Hfl.
  - simpl. unfold expired in Hnow. apply negb_true_iff in Hnow.
    rewrite Hnow, app_nil_r. unfold len. simpl. rewrite Z.add_0_r. reflexivity.
  - apply Forall_cons in Hpre as [Ht Hpre].
    unfold len in Hfl. simpl length in Hfl.
    destruct (is_prime_total f num ltac:(lia)) as [p Hp].
    simpl. rewrite Ht, Hp. simpl.
    rewrite IH; [|exact Hpre|exact Hnow|unfold len; lia].
    unfold counts_as_prime at 2. rewrite Hp.
    rewrite <- app_assoc. simpl. f_equal. f_equal.
    destruct p; unfold len; simpl length; lia.
Qed.

Lemma cpu_loop_ended (f : Z -> Z) (start_time : Q) (duration : Z)
    (ticks : list Q) :
  deadline_reached ticks start_time duration ->
  forall count num tested,
    ended (cpu_loop f ticks start_time duration count num tested).
Proof.
  unfold deadline_reached, ended.
  induction 1 as [now later Hnow | now later _ IH]; intros count num tested; simpl.
  - unfold expired in Hnow. apply negb_true_iff in Hnow. rewrite Hnow.
    discriminate.
  - destruct (within_budget now start_time duration); [|discriminate].
    pose proof (is_prime_ended f num) as Hp.
    destruct (is_prime f num) as [p | e |]; simpl;
      [apply IH | discriminate | contradiction].
Qed.

Lemma cpu_worker_ended (f : Z -> Z) (worker_id duration : Z) (start_time : Q)
    (ticks : list Q) :
  deadline_reached ticks start_time duration ->
  ended (cpu_worker f worker_id duration start_time ticks).
Proof.
  intros H. unfold cpu_worker.
  pose proof (cpu_loop_ended f start_time duration ticks H 0 2 []) as Hl.
  unfold ended in *.
  destruct (cpu_loop f ticks start_time duration 0 2 []); simpl;
    [discriminate | discriminate | contradiction].
Qed.

Lemma join_all_ended {A : Type} (workers : list (result A)) :
  Forall ended workers -> join_all workers = Ok tt.
Proof.
  intros H. unfold join_all.
  replace (forallb _ workers) with true; [reflexivity|].
  symmetry. apply forallb_forall. intros w Hw.
  rewrite Forall_forall in H. specialize (H w).
  destruct w; try reflexivity.
  exfalso. apply H; [|reflexivity].
  apply list_elem_of_In. exact Hw.
Qed.

(** C8 (as amended): while the budget lasts the worker hands the successive
    integers 2, 3, 4, ... (every integer, the even ones too) to [is_prime],
    counts those found prime, stops at the first reading past the budget and
    returns the counter; the cursor starts at 2 and neither it nor the
    counter depends on the worker's identity. *)
Theorem cpu_worker_counts_primes (f : Z -> Z) (worker_id duration : Z)
    (start_time : Q) (pre : list Q) (now : Q) (post : list Q) :
  Forall (fun t => within_budget t start_time duration = true) pre ->
  expired now start_time duration = true ->
  2 + len pre <= float_overflow ->
  exists run,
    cpu_worker f worker_id duration start_time (pre ++ now :: post) = Ok run /\
    cpu_tested run = range3 2 (2 + len pre) 1 /\
    cpu_count run = len (List.filter (counts_as_prime f) (cpu_tested run)) /\
    forall other_id,
      exists run',
        cpu_worker f other_id duration start_time (pre ++ now :: post)
        = Ok run' /\
        cpu_count run' = cpu_count run /\
        cpu_tested run' = cpu_tested run.
Proof.
  intros Hpre Hnow Hfl. unfold cpu_worker.
  rewrite (cpu_loop_runs f start_time duration pre now post 0 2 []
             Hpre Hnow Hfl).
  simpl. eexists. split; [reflexivity|]. simpl.
  rewrite range3_unit by (unfold len; lia).
  unfold len at 1. rewrite Nat2Z.id.
  split; [reflexivity|]. split; [reflexivity|].
  intros other_id. eexists. split; [reflexivity|]. simpl. split; reflexivity.
Qed.

Lemma cpu_worker_counts_primes_witness :
  exists run,
    cpu_worker Z.sqrt 7 1 0 ([0; 0; 0; 0] ++ 1 :: [2])%Q = Ok run /\
    cpu_tested run = [2; 3; 4; 5] /\
    cpu_count run = 3.
Proof.
  destruct (cpu_worker_counts_primes Z.sqrt 7 1 0 [0; 0; 0; 0]%Q 1%Q [2]%Q)
    as (run & Hrun & Htested & Hcount & _).
  - repeat constructor.
  - reflexivity.
  - vm_compute. discriminate.
  - exists run. split; [exact Hrun|]. split; [exact Htested|].
    rewrite Hcount, Htested. reflexivity.
Defined.

(** C8, as stated, fails: with the budget lasting three iterations the worker
    tests 2, 3 and 4, and 4 is neither odd nor 2. *)
Lemma cpu_worker_tests_even_numbers :
  exists run,
    cpu_worker Z.sqrt 0 1 0 [0; 0; 0; 1]%Q = Ok run /\
    cpu_tested run = [2; 3; 4] /\
    In 4 (cpu_tested run) /\ 4 mod 2 = 0 /\ 4 <> 2.
Proof.
  eexists. split; [vm_compute; reflexivity|]. simpl.
  split; [reflexivity|]. split; [auto|]. split; [reflexivity | discriminate].
Qed.

(** ** Byte arrays *)

Lemma chunk_size_pos : 0 < chunk_size.
Proof. unfold chunk_size. lia. Qed.

Lemma resolve_index_in_range (b : block) (j : Z) :
  0 <= j < len b -> resolve_index b j = Ok (Z.to_nat j).
Proof.
  intros Hj. unfold resolve_index, len in *.
  destruct (Z.ltb_spec j 0); [lia|].
  destruct (Z.leb_spec 0 j); [|lia].
  destruct (Z.ltb_spec j (Z.of_nat (length b))); [|lia].
  reflexivity.
Qed.

Lemma setitem_in_range (b : block) (j v : Z) :
  0 <= j < len b -> 0 <= v < 256 ->
  setitem b j v = Ok (<[Z.to_nat j := v]> b).
Proof.
  intros Hj Hv. unfold setitem. rewrite resolve_index_in_range by exact Hj.
  simpl. destruct (Z.leb_spec 0 v); [|lia].
  destruct (Z.ltb_spec v 256); [|lia]. reflexivity.
Qed.

Lemma getitem_in_range (b : block) (j : Z) :
  0 <= j < len b -> exists v, getitem b j = Ok v /\ b !! Z.to_nat j = Some v.
Proof.
  intros Hj. unfold getitem. rewrite resolve_index_in_range by exact Hj.
  cbn [bind]. destruct (lookup_lt_is_Some_2 b (Z.to_nat j)) as [v Hv].
  - unfold len in Hj. lia.
  - exists v. rewrite Hv. split; reflexivity.
Qed.

Lemma resolve_index_ended (b : block) (j : Z) : ended (resolve_index b j).
Proof.
  unfold ended, resolve_index.
  destruct (_ && _); discriminate.
Qed.

Lemma setitem_ended (b : block) (j v : Z) : ended (setitem b j v).
Proof.
  unfold ended, setitem.
  destruct (resolve_index b j) as [k | e |] eqn:Hk; simpl;
    [destruct (_ && _); discriminate | discriminate |].
  exfalso. exact (resolve_index_ended b j Hk).
Qed.

Lemma getitem_ended (b : block) (j : Z) : ended (getitem b j).
Proof.
  unfold ended, getitem.
  destruct (resolve_index b j) as [k | e |] eqn:Hk; simpl;
    [destruct (b !! k); discriminate | discriminate |].
  exfalso. exact (resolve_index_ended b j Hk).
Qed.

(** ** The pattern written into a chunk *)

Lemma write_pattern_spec (i : Z) (offsets : list Z) :
  forall b : block,
    (forall j, In j offsets -> 0 <= j < len b) ->
    exists b' : block,
      write_pattern i offsets b = Ok b' /\
      length b' = length b /\
      (forall j, In j offsets -> b' !! Z.to_nat j = Some ((i + j) mod 256)) /\
      (forall k : nat, ~ In (Z.of_nat k) offsets -> b' !! k = b !! k).
Proof.
  induction offsets as [|j0 rest IH]; intros b Hin.
  - exists b. simpl. split; [reflexivity|]. split; [reflexivity|].
    split; [intros j [] | reflexivity].
  - assert (Hj0 : 0 <= j0 < len b) by (apply Hin; left; reflexivity).
    pose proof (Z.mod_pos_bound (i + j0) 256 ltac:(lia)) as Hv.
    simpl. rewrite (setitem_in_range b j0 _ Hj0 Hv). simpl.
    set (b1 := <[Z.to_nat j0 := (i + j0) mod 256]> b).
    assert (Hlen1 : length b1 = length b) by apply length_insert.
    destruct (IH b1) as (b' & Hw & Hlen & Hset & Hkeep).
    { intros j Hj. unfold len. rewrite Hlen1. apply Hin. right. exact Hj. }
    exists b'. split; [exact Hw|]. split; [congruence|]. split.
    + intros j Hj.
      destruct (in_dec Z.eq_dec j rest) as [Hr | Hnr]; [apply Hset, Hr|].
      destruct Hj as [<- | Hj]; [|contradiction].
      rewrite Hkeep by (rewrite Z2Nat.id by lia; exact Hnr).
      apply list_lookup_insert_eq. unfold len in Hj0. lia.
    + intros k Hk. rewrite Hkeep by (intros H; apply Hk; right; exact H).
      apply list_lookup_insert_ne. intros Heq. apply Hk. left. lia.
Qed.

Lemma in_touched_offsets (j : Z) :
  In j touched_offsets <-> 0 <= j < chunk_size /\ j mod 4096 = 0.
Proof.
  unfold touched_offsets. rewrite range3_spec by lia. split.
  - intros (k & Hk & -> & Hlt). split; [lia|]. apply Z.mod_mul. lia.
  - intros [Hj Hmod]. exists (j / 4096).
    pose proof (Z.div_mod j 4096 ltac:(lia)) as Hdm.
    split; [apply Z.div_pos; lia | lia].
Qed.

Lemma pattern_value (i j : Z) : j mod 4096 = 0 -> (i + j) mod 256 = i mod 256.
Proof.
  intros Hmod. pose proof (Z.div_mod j 4096 ltac:(lia)) as Hdm.
  replace (i + j) with (i + (j / 4096 * 16) * 256) by lia.
  apply Z.mod_add. lia.
Qed.

Lemma pattern_on_zeros (i : Z) (b0 : block) :
  len b0 = chunk_size ->
  (forall k : nat, (k < length b0)%nat -> b0 !! k = Some 0) ->
  exists b : block,
    write_pattern i touched_offsets b0 = Ok b /\
    len b = chunk_size /\
    (forall j, In j touched_offsets -> b !! Z.to_nat j = Some (i mod 256)) /\
    (forall j, 0 <= j < chunk_size -> j mod 4096 <> 0 ->
               b !! Z.to_nat j = Some 0).
Proof.
  intros Hlen0 Hzero.
  destruct (write_pattern_spec i touched_offsets b0)
    as (b & Hw & Hlen & Hset & Hkeep).
  { intros j Hj. apply in_touched_offsets in Hj. lia. }
  exists b. split; [exact Hw|]. split; [unfold len in *; lia|]. split.
  - intros j Hj. rewrite (Hset j Hj). f_equal. apply pattern_value.
    apply in_touched_offsets in Hj. tauto.
  - intros j Hj Hmod. rewrite Hkeep.
    + apply Hzero. unfold len in Hlen0. lia.
    + rewrite Z2Nat.id by lia. rewrite in_touched_offsets. tauto.
Qed.

Lemma new_chunk_spec (i : Z) :
  exists b : block,
    new_chunk true i = Ok b /\
    len b = chunk_size /\
    (forall j, In j touched_offsets -> b !! Z.to_nat j = Some (i mod 256)) /\
    (forall j, 0 <= j < chunk_size -> j mod 4096 <> 0 ->
               b !! Z.to_nat j = Some 0).
Proof.
  unfold new_chunk, bytearray. cbn [bind].
  apply pattern_on_zeros.
  - unfold len. rewrite length_replicate. apply Z2Nat.id.
    apply Z.lt_le_incl, chunk_size_pos.
  - intros k Hk. rewrite length_replicate in Hk.
    apply lookup_replicate_2, Hk.
Qed.

Lemma new_chunk_ended (granted : bool) (i : Z) : ended (new_chunk granted i).
Proof.
  unfold new_chunk, bytearray. destruct granted; cbn [bind]; [|discriminate].
  generalize (replicate (Z.to_nat chunk_size) 0) as b.
  induction touched_offsets as [|j rest IH]; intros b; simpl; [discriminate|].
  pose proof (setitem_ended b j ((i + j) mod 256)) as Hs.
  destruct (setitem b j ((i + j) mod 256)); simpl;
    [apply IH | discriminate | contradiction].
Qed.

(** C9: the allocation phase writes into chunk [i] only at offsets that are
    multiples of 4096, the value [(i + offset) mod 256] written there is
    [i mod 256], and right after the allocation every touched byte of the
    chunk holds [i mod 256]. *)
Theorem allocation_pattern (i : Z) :
  exists b : block,
    new_chunk true i = Ok b /\
    len b = chunk_size /\
    forall j, In j touched_offsets ->
      j mod 4096 = 0 /\
      (i + j) mod 256 = i mod 256 /\
      b !! Z.to_nat j = Some (i mod 256).
Proof.
  destruct (new_chunk_spec i) as (b & Hb & Hlen & Hset & _).
  exists b. split; [exact Hb|]. split; [exact Hlen|].
  intros j Hj. pose proof (proj1 (in_touched_offsets j) Hj) as [_ Hmod].
  split; [exact Hmod|]. split; [apply pattern_value, Hmod | apply Hset, Hj].
Qed.

Lemma allocation_pattern_witness :
  exists b : block,
    new_chunk true 300 = Ok b /\ b !! Z.to_nat 8192 = Some 44.
Proof.
  destruct (allocation_pattern 300) as (b & Hb & _ & Hpattern).
  exists b. split; [exact Hb|].
  assert (Hin : In 8192 touched_offsets).
  { vm_compute. right. right. left. reflexivity. }
  destruct (Hpattern 8192 Hin) as (_ & _ & Hv). exact Hv.
Defined.

(** ** The RAM worker *)

Lemma byte_count_app (a b : list block) :
  byte_count (a ++ b) = byte_count a + byte_count b.
Proof.
  unfold byte_count. induction a as [|x a IH]; simpl; [reflexivity|].
  rewrite IH. lia.
Qed.

Lemma byte_count_full (blocks : list block) :
  full_chunks blocks -> byte_count blocks = len blocks * chunk_size.
Proof.
  unfold full_chunks, byte_count, len.
  induction 1 as [|b blocks Hb _ IH]; [reflexivity|].
  cbn [fold_right length]. rewrite IH. unfold len in Hb. rewrite Hb. lia.
Qed.

Lemma byte_count_lengths (a b : list block) :
  map length a = map length b -> byte_count a = byte_count b.
Proof.
  unfold byte_count. revert b.
  induction a as [|x a IH]; intros [|y b] H; try discriminate; [reflexivity|].
  simpl in H. injection H as Hxy Hab. simpl. rewrite Hxy, (IH b Hab).
  reflexivity.
Qed.

Lemma slept_emit_print (o : output) (st : ram_state) :
  slept (ram_emit (Print o) st) = slept st.
Proof.
  unfold slept, ram_emit. simpl. rewrite existsb_app. simpl.
  rewrite !orb_false_r. reflexivity.
Qed.

(** One granted iteration of the allocation loop. *)
Lemma allocate_loop_step (worker_id : Z) (granted : Z -> bool) (i : Z)
    (rest : list Z) (st : ram_state) :
  granted i = true ->
  exists st2,
    allocate_loop worker_id granted (i :: rest) st
    = allocate_loop worker_id granted rest st2 /\
    (exists b, len b = chunk_size /\
               memory_blocks st2 = memory_blocks st ++ [b]) /\
    slept st2 = slept st.
Proof.
  intros Hi. destruct (new_chunk_spec i) as (b & Hb & Hlen & _).
  cbn [allocate_loop]. rewrite Hi, Hb.
  eexists. split; [reflexivity|].
  destruct ((i + 1) mod 100 =? 0).
  - split; [exists b; split; [exact Hlen | reflexivity]|].
    unfold print_status. rewrite slept_emit_print. reflexivity.
  - split; [exists b; split; [exact Hlen | reflexivity] | reflexivity].
Qed.

Lemma allocate_loop_granted (worker_id : Z) (granted : Z -> bool)
    (indices : list Z) :
  forall st,
    Forall (fun i => granted i = true) indices ->
    full_chunks (memory_blocks st) ->
    exists st',
      allocate_loop worker_id granted indices st = (st', Ok tt) /\
      full_chunks (memory_blocks st') /\
      len (memory_blocks st') = len (memory_blocks st) + len indices /\
      slept st' = slept st.
Proof.
  induction indices as [|i rest IH]; intros st Hall Hfull.
  - exists st. simpl. unfold len. simpl. repeat split; [exact Hfull | lia].
  - apply Forall_cons in Hall as [Hi Hrest].
    destruct (allocate_loop_step worker_id granted i rest st Hi)
      as (st2 & Hstep & (b & Hb & Hblocks) & Hslept).
    destruct (IH st2 Hrest) as (st' & Hrun & Hfull' & Hlen & Hslept').
    { rewrite Hblocks. apply Forall_app. split; [exact Hfull|].
      constructor; [exact Hb | constructor]. }
    exists st'. rewrite Hstep. split; [exact Hrun|]. split; [exact Hfull'|].
    split; [|congruence].
    rewrite Hlen, Hblocks. unfold len. rewrite length_app. simpl. lia.
Qed.

Lemma allocate_loop_refused (worker_id : Z) (granted : Z -> bool)
    (pre : list Z) (i : Z) (post : list Z) :
  forall st,
    Forall (fun k => granted k = true) pre ->
    granted i = false ->
    full_chunks (memory_blocks st) ->
    exists st',
      allocate_loop worker_id granted (pre ++ i :: post) st
      = (st', Raise MemoryError) /\
      full_chunks (memory_blocks st') /\
      len (memory_blocks st') = len (memory_blocks st) + len pre /\
      slept st' = slept st.
Proof.
  induction pre as [|k pre IH]; intros st Hall Hi Hfull.
  - exists st. cbn [app allocate_loop]. rewrite Hi.
    unfold new_chunk, bytearray. cbn [bind]. unfold len. simpl.
    repeat split; [exact Hfull | lia].
  - apply Forall_cons in Hall as [Hk Hpre].
    rewrite <- app_comm_cons.
    destruct (allocate_loop_step worker_id granted k (pre ++ i :: post) st Hk)
      as (st2 & Hstep & (b & Hb & Hblocks) & Hslept).
    destruct (IH st2 Hpre Hi) as (st' & Hrun & Hfull' & Hlen & Hslept').
    { rewrite Hblocks. apply Forall_app. split; [exact Hfull|].
      constructor; [exact Hb | constructor]. }
    exists st'. rewrite Hstep. split; [exact Hrun|]. split; [exact Hfull'|].
    split; [|congruence].
    rewrite Hlen, Hblocks. unfold len. rewrite length_app. simpl. lia.
Qed.

Lemma allocate_loop_ended (worker_id : Z) (granted : Z -> bool)
    (indices : list Z) :
  forall st, ended (snd (allocate_loop worker_id granted indices st)).
Proof.
  induction indices as [|i rest IH]; intros st; cbn [allocate_loop].
  - discriminate.
  - pose proof (new_chunk_ended (granted i) i) as Hc.
    destruct (new_chunk (granted i) i); [apply IH | discriminate | contradiction].
Qed.

(** ** The hold phase *)

Lemma touch_keeps_length (b : block) :
  (0 < length b)%nat -> exists b', touch b = Ok b' /\ length b' = length b.
Proof.
  intros Hb. unfold touch.
  destruct (getitem_in_range b 0) as (v & Hv & _); [unfold len; lia|].
  rewrite Hv. cbn [bind].
  rewrite setitem_in_range;
    [|unfold len; lia | apply Z.mod_pos_bound; lia].
  eexists. split; [reflexivity | apply length_insert].
Qed.

Lemma touch_every_10th_lengths (blocks : list block) :
  forall skip,
    Forall (fun n => (0 < n)%nat) (map length blocks) ->
    exists blocks',
      touch_every_10th skip blocks = Ok blocks' /\
      map length blocks' = map length blocks.
Proof.
  induction blocks as [|b rest IH]; intros skip Hpos.
  - exists []. split; reflexivity.
  - cbn [map] in Hpos. apply Forall_cons in Hpos as [Hb Hrest].
    destruct skip as [|k]; cbn [touch_every_10th].
    + destruct (touch_keeps_length b Hb) as (b' & Hb' & Hlen).
      destruct (IH 9%nat Hrest) as (rest' & Hr & Hlens).
      rewrite Hb'. cbn [bind]. rewrite Hr. cbn [bind].
      eexists. split; [reflexivity|]. cbn [map]. congruence.
    + destruct (IH k Hrest) as (rest' & Hr & Hlens).
      rewrite Hr. cbn [bind].
      eexists. split; [reflexivity|]. cbn [map]. congruence.
Qed.

Lemma hold_loop_holds (ticks : list Q) (start_time : Q) (duration : Z) :
  deadline_reached ticks start_time duration ->
  forall st,
    Forall (fun n => (0 < n)%nat) (map length (memory_blocks st)) ->
    exists st',
      hold_loop ticks start_time duration st = (st', Ok tt) /\
      map length (memory_blocks st') = map length (memory_blocks st).
Proof.
  unfold deadline_reached.
  induction 1 as [now later Hnow | now later _ IH]; intros st Hpos;
    cbn [hold_loop].
  - unfold expired in Hnow. apply negb_true_iff in Hnow. rewrite Hnow.
    exists st. split; reflexivity.
  - destruct (within_budget now start_time duration);
      [|exists st; split; reflexivity].
    destruct (touch_every_10th_lengths (memory_blocks st) 0%nat Hpos)
      as (blocks & Htouch & Hlens).
    rewrite Htouch.
    destruct (IH {| memory_blocks := blocks;
                    ram_log := ram_log st ++ [Sleep (1 # 10)] |})
      as (st' & Hrun & Hlens').
    { cbn [memory_blocks]. rewrite Hlens. exact Hpos. }
    exists st'. split; [exact Hrun|]. cbn [memory_blocks] in Hlens'. congruence.
Qed.

Lemma touch_ended (b : block) : ended (touch b).
Proof.
  unfold touch. pose proof (getitem_ended b 0) as Hg.
  destruct (getitem b 0) as [v | e |]; cbn [bind];
    [apply setitem_ended | discriminate | contradiction].
Qed.

Lemma touch_every_10th_ended (blocks : list block) :
  forall skip, ended (touch_every_10th skip blocks).
Proof.
  induction blocks as [|b rest IH]; intros skip; cbn [touch_every_10th];
    [discriminate|].
  destruct skip as [|k].
  - pose proof (touch_ended b) as Ht. pose proof (IH 9%nat) as Hr.
    destruct (touch b); cbn [bind]; [|discriminate | contradiction].
    destruct (touch_every_10th 9 rest); cbn [bind];
      [discriminate | discriminate | contradiction].
  - pose proof (IH k) as Hr.
    destruct (touch_every_10th k rest); cbn [bind];
      [discriminate | discriminate | contradiction].
Qed.

Lemma hold_loop_ended (ticks : list Q) (start_time : Q) (duration : Z) :
  deadline_reached ticks start_time duration ->
  forall st, ended (snd (hold_loop ticks start_time duration st)).
Proof.
  unfold deadline_reached.
  induction 1 as [now later Hnow | now later _ IH]; intros st; cbn [hold_loop].
  - unfold expired in Hnow. apply negb_true_iff in Hnow. rewrite Hnow.
    discriminate.
  - destruct (within_budget now start_time duration); [|discriminate].
    pose proof (touch_every_10th_ended (memory_blocks st) 0%nat) as Ht.
    destruct (touch_every_10th 0 (memory_blocks st));
      [apply IH | discriminate | contradiction].
Qed.

(** A worker whose clock reaches the end of the budget returns, whatever
    happens to its allocations. *)
Lemma ram_worker_returns (worker_id size_mb duration : Z) (env : ram_env) :
  deadline_reached (ram_ticks env) (ram_start_time env) duration ->
  exists st, ram_worker worker_id size_mb duration env = Ok st.
Proof.
  intros Hdl. unfold ram_worker, ram_try.
  match goal with
  | |- context [allocate_loop ?w ?g ?l ?s] =>
      pose proof (allocate_loop_ended w g l s) as Ha;
      destruct (allocate_loop w g l s) as [st1 r1]
  end.
  cbn [snd] in Ha. destruct r1 as [[] | e |]; [| |contradiction].
  - match goal with
    | |- context [hold_loop ?t ?s ?d ?x] =>
        pose proof (hold_loop_ended t s d Hdl x) as Hh;
        destruct (hold_loop t s d x) as [st3 r3]
    end.
    cbn [snd] in Hh. destruct r3 as [[] | e |]; [| |contradiction].
    + eexists. reflexivity.
    + destruct e; eexists; reflexivity.
  - destruct e; eexists; reflexivity.
Qed.

(** Either every index of a list passes a test, or there is a first one that
    does not. *)
Lemma first_failure {A : Type} (p : A -> bool) (l : list A) :
  Forall (fun x => p x = true) l \/
  exists pre x post,
    l = pre ++ x :: post /\ Forall (fun y => p y = true) pre /\ p x = false.
Proof.
  induction l as [|a l IH].
  - left. constructor.
  - destruct (p a) eqn:Ha.
    + destruct IH as [Hall | (pre & x & post & -> & Hpre & Hx)].
      * left. constructor; assumption.
      * right. exists (a :: pre), x, post.
        split; [reflexivity|]. split; [constructor; assumption | exact Hx].
    + right. exists [], a, l. split; [reflexivity|]. split; [constructor | exact Ha].
Qed.

Lemma range_from_position (pre : list Z) (x : Z) (post : list Z) :
  forall (n : nat) (a : Z),
    range_from n a 1 = pre ++ x :: post -> x = a + len pre.
Proof.
  unfold len.
  induction pre as [|p pre IH]; intros [|n] a H; simpl in H; try discriminate.
  - injection H as Hx _. simpl. lia.
  - injection H as _ Hrest. apply IH in Hrest. simpl length. lia.
Qed.

Lemma full_chunks_nonempty (blocks : list block) :
  full_chunks blocks -> Forall (fun n => (0 < n)%nat) (map length blocks).
Proof.
  unfold full_chunks. pose proof chunk_size_pos as Hpos.
  induction 1 as [|b blocks Hb _ IH]; cbn [map]; constructor.
  - unfold len in Hb. lia.
  - exact IH.
Qed.

Lemma last_emit (e : event) (st : ram_state) :
  last (ram_log (ram_emit e st)) = Some e.
Proof. unfold ram_emit. cbn [ram_log]. apply last_snoc. Qed.

(** A worker to which every allocation is granted. *)
Lemma ram_worker_all_granted (worker_id size_mb duration : Z) (env : ram_env) :
  0 <= size_mb ->
  Forall (fun i => ram_granted env i = true) (range size_mb) ->
  deadline_reached (ram_ticks env) (ram_start_time env) duration ->
  exists st,
    ram_worker worker_id size_mb duration env = Ok st /\
    allocated_bytes st = size_mb * chunk_size /\
    last (ram_log st) = Some (ram_finished worker_id).
Proof.
  intros Hsize Hall Hdl. unfold ram_worker, ram_try.
  set (st0 := {| memory_blocks := []; ram_log := _ |}).
  assert (Hfull0 : full_chunks (memory_blocks st0)) by constructor.
  destruct (allocate_loop_granted worker_id (ram_granted env)
              (range size_mb) st0 Hall Hfull0)
    as (st1 & Hrun & Hfull1 & Hlen1 & _).
  rewrite Hrun.
  match goal with
  | |- context [hold_loop ?t ?s ?d ?x] =>
      destruct (hold_loop_holds t s d Hdl x) as (st3 & Hhold & Hlens)
  end.
  { apply full_chunks_nonempty. exact Hfull1. }
  rewrite Hhold. eexists. split; [reflexivity|]. split; [|apply last_emit].
  unfold allocated_bytes. cbn [ram_emit memory_blocks] in *.
  rewrite (byte_count_lengths _ _ Hlens), (byte_count_full _ Hfull1), Hlen1.
  rewrite len_range by exact Hsize. unfold len. simpl. lia.
Qed.

(** A worker that is refused a chunk after the chunks [pre]. *)
Lemma ram_worker_refused (worker_id size_mb duration : Z) (env : ram_env)
    (pre : list Z) (i : Z) (post : list Z) :
  range size_mb = pre ++ i :: post ->
  Forall (fun k => ram_granted env k = true) pre ->
  ram_granted env i = false ->
  exists st,
    ram_worker worker_id size_mb duration env = Ok st /\
    allocated_bytes st = len pre * chunk_size /\
    slept st = false /\
    last (ram_log st) = Some (allocation_failed worker_id).
Proof.
  intros Hsplit Hpre Hi. unfold ram_worker, ram_try.
  set (st0 := {| memory_blocks := []; ram_log := _ |}).
  assert (Hfull0 : full_chunks (memory_blocks st0)) by constructor.
  rewrite Hsplit.
  destruct (allocate_loop_refused worker_id (ram_granted env) pre i post
              st0 Hpre Hi Hfull0)
    as (st1 & Hrun & Hfull1 & Hlen1 & Hslept).
  rewrite Hrun. eexists. split; [reflexivity|]. split; [|split].
  - unfold allocated_bytes. cbn [ram_emit memory_blocks].
    rewrite (byte_count_full _ Hfull1), Hlen1. unfold len. simpl. lia.
  - unfold allocation_failed, print_status. rewrite slept_emit_print.
    rewrite Hslept. reflexivity.
  - apply last_emit.
Qed.

(** The elements of [range n] before a given one are the smaller ints. *)
Lemma range_split (n : Z) (pre : list Z) (i : Z) (post : list Z) :
  0 <= n ->
  range n = pre ++ i :: post ->
  i = len pre /\ 0 <= i < n /\ forall k, 0 <= k < i -> In k pre.
Proof.
  intros Hn Hsplit.
  assert (Hi : i = len pre).
  { rewrite range_unit in Hsplit by exact Hn.
    apply range_from_position in Hsplit. lia. }
  assert (Hrange : 0 <= i < n).
  { apply in_range. rewrite Hsplit. apply in_or_app. right. left. reflexivity. }
  split; [exact Hi|]. split; [exact Hrange|].
  intros k Hk.
  assert (Hk_in : In k (range n)) by (apply in_range; lia).
  rewrite Hsplit in Hk_in.
  apply in_app_or in Hk_in as [Hk_pre | [-> | Hk_post]];
    [exact Hk_pre | lia |].
  exfalso. apply in_split in Hk_post as (mid & post' & ->).
  rewrite range_unit in Hsplit by exact Hn.
  replace (pre ++ i :: mid ++ k :: post')
    with ((pre ++ i :: mid) ++ k :: post') in Hsplit
    by (rewrite <- app_assoc; reflexivity).
  apply range_from_position in Hsplit.
  unfold len in *. rewrite length_app in Hsplit. simpl in Hsplit. lia.
Qed.

(** C3 (as amended): for every requested size that is not negative, a worker
    whose budget runs out either holds exactly [size_mb] MiB at the end, or
    stopped at the first refused allocation, with the chunks before it, never
    entering the hold phase, and reported the allocation failure; it never
    holds more than [size_mb] MiB. *)
Theorem ram_worker_allocation (worker_id size_mb duration : Z)
    (env : ram_env) :
  0 <= size_mb ->
  deadline_reached (ram_ticks env) (ram_start_time env) duration ->
  exists st,
    ram_worker worker_id size_mb duration env = Ok st /\
    allocated_bytes st <= size_mb * (1024 * 1024) /\
    ((allocated_bytes st = size_mb * (1024 * 1024) /\
      (forall i, 0 <= i < size_mb -> ram_granted env i = true) /\
      last (ram_log st) = Some (ram_finished worker_id))
     \/
     (exists i,
        0 <= i < size_mb /\
        ram_granted env i = false /\
        (forall k, 0 <= k < i -> ram_granted env k = true) /\
        allocated_bytes st = i * (1024 * 1024) /\
        slept st = false /\
        last (ram_log st) = Some (allocation_failed worker_id))).
Proof.
  intros Hsize Hdl. change (1024 * 1024) with chunk_size.
  pose proof chunk_size_pos as Hpos.
  destruct (first_failure (ram_granted env) (range size_mb))
    as [Hall | (pre & i & post & Hsplit & Hpre & Hi)].
  - destruct (ram_worker_all_granted worker_id size_mb duration env
                Hsize Hall Hdl) as (st & Hrun & Hbytes & Hlast).
    exists st. split; [exact Hrun|]. split; [lia|]. left.
    split; [exact Hbytes|]. split; [|exact Hlast].
    intros k Hk. rewrite Forall_forall in Hall.
    apply Hall, list_elem_of_In, in_range, Hk.
  - destruct (ram_worker_refused worker_id size_mb duration env pre i post
                Hsplit Hpre Hi) as (st & Hrun & Hbytes & Hslept & Hlast).
    destruct (range_split size_mb pre i post Hsize Hsplit)
      as (Hlen & Hrange & Hbefore).
    rewrite <- Hlen in Hbytes.
    exists st. split; [exact Hrun|]. split; [rewrite Hbytes; nia|]. right.
    exists i. split; [exact Hrange|]. split; [exact Hi|].
    split; [|split; [exact Hbytes | split; [exact Hslept | exact Hlast]]].
    intros k Hk. rewrite Forall_forall in Hpre.
    apply Hpre, list_elem_of_In, Hbefore, Hk.
Qed.

Lemma ram_worker_allocation_witness :
  exists st,
    ram_worker 0 10 60 sample_ram_env = Ok st /\
    allocated_bytes st <= 10 * (1024 * 1024).
Proof.
  destruct (ram_worker_allocation 0 10 60 sample_ram_env)
    as (st & Hrun & Hle & _).
  - lia.
  - apply Exists_cons_hd. reflexivity.
  - exists st. split; [exact Hrun | exact Hle].
Defined.

(** C3, as stated, fails for a negative size: the worker allocates nothing,
    which is more than the negative number of bytes requested. *)
Lemma ram_worker_negative_size :
  exists st,
    ram_worker 0 (-1) 60 sample_ram_env = Ok st /\
    allocated_bytes st = 0 /\
    ~ allocated_bytes st <= -1 * (1024 * 1024) /\
    allocated_bytes st <> -1 * (1024 * 1024).
Proof.
  eexists. split; [vm_compute; reflexivity|].
  split; [reflexivity|]. split; vm_compute; [intros H; apply H; reflexivity | discriminate].
Qed.

(** ** The network test *)

Lemma stress_network_invalid (env : net_env) (mode host : string)
    (port duration clients : Z) :
  mode <> "server"%string -> mode <> "client"%string ->
  stress_network env mode host port duration clients
  = Ok {| net_log := [print_header "NETWORK STRESS TEST"; invalid_mode];
          net_server := None;
          net_clients := [] |}.
Proof.
  intros Hs Hc. unfold stress_network.
  apply String.eqb_neq in Hs, Hc. rewrite Hs, Hc. reflexivity.
Qed.

(** C5: for every mode other than "server" and "client", [stress_network]
    reports the invalid mode as an error and does nothing else: no worker is
    started, no socket opened, no byte transferred. *)
Theorem invalid_mode_does_no_work (env : net_env) (mode host : string)
    (port duration clients : Z) :
  mode <> "server"%string -> mode <> "client"%string ->
  exists rep,
    stress_network env mode host port duration clients = Ok rep /\
    net_events rep = [print_header "NETWORK STRESS TEST"; invalid_mode] /\
    invalid_mode
    = Print (Status "Invalid network mode. Use 'server' or 'client'" [] error) /\
    List.filter is_work (net_events rep) = [] /\
    net_server rep = None /\
    net_clients rep = [].
Proof.
  intros Hs Hc. eexists. split; [apply stress_network_invalid; assumption|].
  repeat split.
Qed.

Lemma invalid_mode_does_no_work_witness :
  exists rep,
    stress_network sample_net_env "both" "127.0.0.1" 9999 60 4 = Ok rep /\
    List.filter is_work (net_events rep) = [].
Proof.
  destruct (invalid_mode_does_no_work sample_net_env
              "both" "127.0.0.1" 9999 60 4)
    as (rep & Hrun & _ & _ & Hwork & _).
  - discriminate.
  - discriminate.
  - exists rep. split; [exact Hrun | exact Hwork].
Defined.

(** ** The client's counters *)

Lemma len_data : len data = 1024.
Proof. reflexivity. Qed.

Lemma count_bytes_invariant (st : client_state) :
  client_invariant st ->
  client_invariant (count_bytes st) /\
  bytes_sent (count_bytes st) = bytes_sent st + 1024 /\
  requests (count_bytes st) = requests st.
Proof.
  unfold client_invariant, covered, count_bytes. rewrite len_data.
  cbn [bytes_sent requests history fst snd head].
  intros (Hnow & Hhist & _). repeat split; try lia.
  constructor; [cbn [fst snd]; lia | exact Hhist].
Qed.

Lemma cl_emit_invariant (es : list event) (st : client_state) :
  client_invariant st -> client_invariant (cl_emit es st).
Proof. intros H. exact H. Qed.

Lemma send_loop_counts (round : Z -> round_step) (rounds : list Z) :
  forall st,
    requests (fst (send_loop rounds round st)) = requests st /\
    bytes_sent st <= bytes_sent (fst (send_loop rounds round st)) /\
    (snd (send_loop rounds round st) = Ok tt ->
     bytes_sent (fst (send_loop rounds round st))
     = bytes_sent st + 1024 * len rounds) /\
    ended (snd (send_loop rounds round st)).
Proof.
  induction rounds as [|k rest IH]; intros st; cbn [send_loop].
  - cbn [fst snd]. split; [reflexivity|].
    split; [lia|]. split; [intros _; unfold len; simpl; lia | discriminate].
  - destruct (round k) as [| e | e]; cbn [fst snd].
    + destruct (IH (cl_emit [Received (len data)] (count_bytes st)))
        as (Hreq' & Hle & Hok & Hend).
      cbn [cl_emit count_bytes bytes_sent requests] in *.
      rewrite len_data in *.
      split; [lia|]. split; [lia|]. split; [|exact Hend].
      intros Hr. rewrite (Hok Hr). unfold len. simpl length. lia.
    + split; [reflexivity|]. split; [lia|]. split; discriminate.
    + cbn [count_bytes bytes_sent requests]. rewrite len_data.
      split; [reflexivity|]. split; [lia|]. split; discriminate.
Qed.

Lemma send_loop_invariant (round : Z -> round_step) (rounds : list Z) :
  forall st,
    client_invariant st ->
    client_invariant (fst (send_loop rounds round st)).
Proof.
  induction rounds as [|k rest IH]; intros st Hinv; cbn [send_loop];
    [exact Hinv|].
  destruct (count_bytes_invariant st Hinv) as (Hinv1 & _).
  destruct (round k) as [| e | e]; cbn [fst];
    [apply IH, cl_emit_invariant, Hinv1 | exact Hinv | exact Hinv1].
Qed.

Lemma send_loop_completes (round : Z -> round_step) (rounds : list Z) :
  forall st,
    (forall k, In k rounds -> round k = RoundOk) ->
    snd (send_loop rounds round st) = Ok tt.
Proof.
  induction rounds as [|k rest IH]; intros st Hall; cbn [send_loop];
    [reflexivity|].
  rewrite (Hall k) by (left; reflexivity).
  apply IH. intros j Hj. apply Hall. right. exact Hj.
Qed.

Lemma count_request_invariant (st : client_state) :
  102400 * (requests st + 1) <= bytes_sent st ->
  Forall covered (history st) ->
  client_invariant (count_request st).
Proof.
  intros Hnow Hhist. unfold client_invariant, covered, count_request.
  cbn [bytes_sent requests history fst snd head].
  repeat split; [exact Hnow|].
  constructor; [exact Hnow | exact Hhist].
Qed.

Lemma client_attempt_invariant (worker_id : Z) (a : attempt)
    (st : client_state) :
  client_invariant st ->
  client_invariant (fst (client_attempt worker_id a st)).
Proof.
  intros Hinv. unfold client_attempt.
  destruct (att_connect a) as [[] | e |]; cbn [fst]; try exact Hinv.
  pose proof (send_loop_invariant (att_round a) (range 100)
                (cl_emit [Connected] (cl_emit [SocketOpen] st)) Hinv)
    as Hinv1.
  pose proof (send_loop_counts (att_round a) (range 100)
                (cl_emit [Connected] (cl_emit [SocketOpen] st)))
    as (Hreq & Hle & Hok & _).
  destruct (send_loop (range 100) (att_round a)
              (cl_emit [Connected] (cl_emit [SocketOpen] st)))
    as [st1 r1].
  cbn [fst snd] in *.
  destruct r1 as [[] | e |]; cbn [fst]; try exact Hinv1.
  assert (Hinv2 : client_invariant (count_request st1)).
  { apply count_request_invariant; [|apply Hinv1].
    rewrite (Hok eq_refl), Hreq. cbn [cl_emit bytes_sent requests].
    change (len (range 100)) with 100.
    destruct Hinv as (Hnow & _). unfold covered in Hnow.
    cbn [fst snd] in Hnow. lia. }
  destruct (att_close a) as [[] | e |]; cbn [fst]; try exact Hinv2.
  destruct (_ =? 0); exact Hinv2.
Qed.

Lemma client_loop_invariant (rounds : list (Q * attempt)) (start_time : Q)
    (duration worker_id : Z) :
  forall st,
    client_invariant st ->
    client_invariant
      (fst (client_loop rounds start_time duration worker_id st)).
Proof.
  induction rounds as [|[now a] later IH]; intros st Hinv; cbn [client_loop];
    [exact Hinv|].
  destruct (within_budget now start_time duration); [|exact Hinv].
  pose proof (client_attempt_invariant worker_id a st Hinv) as Hinv1.
  destruct (client_attempt worker_id a st) as [st1 r1]. cbn [fst] in Hinv1.
  destruct r1 as [[] | e |]; [apply IH, Hinv1 | | exact Hinv1].
  apply IH, cl_emit_invariant, Hinv1.
Qed.

Lemma client_attempt_completes (worker_id : Z) (a : attempt)
    (st : client_state) :
  att_connect a = Ok tt ->
  (forall k, 0 <= k < 100 -> att_round a k = RoundOk) ->
  att_close a = Ok tt ->
  exists st',
    client_attempt worker_id a st = (st', Ok tt) /\
    bytes_sent st' = bytes_sent st + 102400 /\
    requests st' = requests st + 1.
Proof.
  intros Hconnect Hrounds Hclose. unfold client_attempt.
  rewrite Hconnect, Hclose.
  pose proof (send_loop_counts (att_round a) (range 100)
                (cl_emit [Connected] (cl_emit [SocketOpen] st)))
    as (Hreq & _ & Hok & _).
  pose proof (send_loop_completes (att_round a) (range 100)
                (cl_emit [Connected] (cl_emit [SocketOpen] st))) as Hdone.
  destruct (send_loop (range 100) (att_round a)
              (cl_emit [Connected] (cl_emit [SocketOpen] st)))
    as [st1 r1].
  cbn [fst snd] in *.
  rewrite Hdone by (intros k Hk; apply Hrounds, in_range, Hk).
  rewrite Hdone in Hok by (intros k Hk; apply Hrounds, in_range, Hk).
  specialize (Hok eq_refl). change (len (range 100)) with 100 in Hok.
  eexists. split; [reflexivity|].
  destruct (_ =? 0); cbn [cl_emit count_request bytes_sent requests] in *; lia.
Qed.

(** C10: at every point of a client's execution the bytes sent cover the
    requests counted, [bytes_sent >= 102400 * requests]; and a connection on
    which connect, the 100 sends with their echoes and close all succeed adds
    exactly 102400 to [bytes_sent] and exactly 1 to [requests]. *)
Theorem client_counters (env : client_env) (host : string)
    (port duration worker_id : Z) :
  (let st := fst (network_client env host port duration worker_id) in
   102400 * requests st <= bytes_sent st /\
   Forall (fun counters => 102400 * snd counters <= fst counters)
     (history st) /\
   head (history st) = Some (bytes_sent st, requests st)) /\
  (forall (a : attempt) (st : client_state),
     att_connect a = Ok tt ->
     (forall k, 0 <= k < 100 -> att_round a k = RoundOk) ->
     att_close a = Ok tt ->
     exists st',
       client_attempt worker_id a st = (st', Ok tt) /\
       bytes_sent st' = bytes_sent st + 102400 /\
       requests st' = requests st + 1).
Proof.
  split.
  - unfold network_client.
    match goal with
    | |- context [client_loop ?r ?s ?d ?w ?st0] =>
        pose proof (client_loop_invariant r s d w st0) as Hinv;
        destruct (client_loop r s d w st0) as [st r1]
    end.
    cbn [fst] in Hinv.
    assert (H : client_invariant st).
    { apply Hinv. unfold client_invariant, covered.
      cbn [bytes_sent requests history fst snd head].
      repeat split; [lia|]. constructor; [cbn [fst snd]; lia | constructor]. }
    destruct r1 as [[] | e |]; cbn [fst]; exact H.
  - intros a st Hconnect Hrounds Hclose.
    apply client_attempt_completes; assumption.
Qed.

Lemma client_counters_witness :
  exists st',
    client_attempt 0 smooth_attempt fresh_client = (st', Ok tt) /\
    bytes_sent st' = 102400 /\
    requests st' = 1.
Proof.
  destruct (client_counters {| cl_start_time := 0; cl_rounds := [] |}
              "127.0.0.1" 9999 60 0) as (_ & Hattempt).
  apply (Hattempt smooth_attempt fresh_client).
  - reflexivity.
  - intros k Hk. reflexivity.
  - reflexivity.
Defined.

(** ** The worker pools *)

Lemma Forall_map_range {A : Type} (P : A -> Prop) (f : Z -> A) (n : Z) :
  (forall i, 0 <= i < n -> P (f i)) -> Forall P (map f (range n)).
Proof.
  intros H. apply Forall_forall. intros x Hx.
  apply list_elem_of_In, in_map_iff in Hx as (i & <- & Hi).
  apply H, in_range, Hi.
Qed.

Lemma len_map {A B : Type} (f : A -> B) (l : list A) : len (map f l) = len l.
Proof. unfold len. rewrite length_map. reflexivity. Qed.

Lemma cpu_pool_runs (f : Z -> Z) (env : cpu_env) (cores duration : Z) :
  1 <= cores ->
  (forall i, 0 <= i < cores ->
     deadline_reached (cpu_ticks env i) (cpu_start_time env) duration) ->
  cpu_pool f env cores duration
  = Ok (map (fun i => cpu_worker f i duration (cpu_start_time env)
                        (cpu_ticks env i))
            (range cores)) /\
  Forall ended
    (map (fun i => cpu_worker f i duration (cpu_start_time env)
                     (cpu_ticks env i))
         (range cores)).
Proof.
  intros Hcores Hdl.
  assert (Hended : Forall ended
            (map (fun i => cpu_worker f i duration (cpu_start_time env)
                             (cpu_ticks env i))
                 (range cores))).
  { apply Forall_map_range. intros i Hi. apply cpu_worker_ended, Hdl, Hi. }
  split; [|exact Hended].
  unfold cpu_pool, Pool. destruct (Z.ltb_spec cores 1); [lia|].
  cbn [bind]. rewrite (join_all_ended _ Hended). reflexivity.
Qed.

Lemma stress_ram_runs (envs : Z -> ram_env) (size_mb duration threads : Z) :
  threads <> 0 ->
  (forall i, 0 <= i < threads ->
     deadline_reached (ram_ticks (envs i)) (ram_start_time (envs i)) duration) ->
  exists rep,
    stress_ram envs size_mb duration threads = Ok rep /\
    ram_spawned rep
    = map (fun i => (i, size_mb / threads, duration)) (range threads) /\
    ram_workers rep
    = map (fun i => ram_worker i (size_mb / threads) duration (envs i))
          (range threads) /\
    forall i, 0 <= i < threads -> In (ThreadStart i) (ram_report_log rep).
Proof.
  intros Hthreads Hdl. unfold stress_ram, floordiv.
  destruct (Z.eqb_spec threads 0); [contradiction|]. cbn [bind].
  rewrite map_map.
  rewrite join_all_ended.
  - cbn [bind]. eexists. split; [reflexivity|].
    cbn [ram_spawned ram_workers ram_report_log].
    split; [reflexivity|]. split; [reflexivity|].
    intros i Hi. apply in_or_app. right. apply in_or_app. left.
    rewrite map_map. apply in_map_iff. exists i.
    split; [reflexivity | apply in_range, Hi].
  - apply Forall_map_range. intros i Hi.
    destruct (ram_worker_returns i (size_mb / threads) duration (envs i)
                (Hdl i Hi)) as (st & ->).
    discriminate.
Qed.

Lemma requested_mb_constant (q d : Z) (l : list Z) (log : list event)
    (workers : list (result ram_state)) :
  requested_mb {| ram_spawned := map (fun i => (i, q, d)) l;
                  ram_workers := workers;
                  ram_report_log := log |}
  = len l * q.
Proof.
  unfold requested_mb, len. cbn [ram_spawned].
  induction l as [|i l IH]; [reflexivity|].
  cbn [map fold_right length]. rewrite IH. lia.
Qed.

Lemma total_allocated_constant (c : Z) (workers : list (result ram_state))
    (spawned : list (Z * Z * Z)) (log : list event) :
  Forall (fun w => exists st, w = Ok st /\ allocated_bytes st = c) workers ->
  total_allocated {| ram_spawned := spawned;
                     ram_workers := workers;
                     ram_report_log := log |}
  = len workers * c.
Proof.
  unfold total_allocated, len. cbn [ram_workers].
  induction 1 as [|w workers (st & -> & Hst) _ IH]; [reflexivity|].
  cbn [fold_right length]. rewrite IH, Hst. lia.
Qed.

(** C7: for a positive number of threads every worker is handed
    [size_mb // threads] MB, by integer division; the MB asked for all
    together are [threads * (size_mb // threads)], the remainder
    [size_mb mod threads] being dropped, and that much is what the workers
    hold when the size is not negative and every allocation is granted. *)
Theorem stress_ram_size_per_thread (envs : Z -> ram_env)
    (size_mb duration threads : Z) :
  0 < threads ->
  (forall i, 0 <= i < threads ->
     deadline_reached (ram_ticks (envs i)) (ram_start_time (envs i)) duration) ->
  exists rep,
    stress_ram envs size_mb duration threads = Ok rep /\
    ram_spawned rep
    = map (fun i => (i, size_mb / threads, duration)) (range threads) /\
    len (ram_spawned rep) = threads /\
    Forall (fun '(_, size, _) => size = size_mb / threads) (ram_spawned rep) /\
    requested_mb rep = threads * (size_mb / threads) /\
    requested_mb rep = size_mb - size_mb mod threads /\
    0 <= size_mb mod threads < threads /\
    (0 <= size_mb ->
     (forall i k, ram_granted (envs i) k = true) ->
     total_allocated rep = threads * (size_mb / threads) * (1024 * 1024)).
Proof.
  intros Hthreads Hdl.
  destruct (stress_ram_runs envs size_mb duration threads ltac:(lia) Hdl)
    as (rep & Hrun & Hspawned & Hworkers & _).
  exists rep. split; [exact Hrun|]. split; [exact Hspawned|].
  destruct rep as [spawned workers log].
  cbn [ram_spawned ram_workers] in Hspawned, Hworkers. subst spawned workers.
  cbn [ram_spawned].
  pose proof (Z.div_mod size_mb threads ltac:(lia)) as Hdm.
  pose proof (Z.mod_pos_bound size_mb threads Hthreads) as Hmod.
  rewrite requested_mb_constant, len_map, len_range by lia.
  split; [reflexivity|]. split.
  { apply Forall_forall. intros [[i s] d] Hin.
    apply list_elem_of_In, in_map_iff in Hin as (j & Hj & _).
    congruence. }
  split; [reflexivity|]. split; [lia|]. split; [exact Hmod|].
  intros Hsize Hgranted.
  rewrite total_allocated_constant with (c := size_mb / threads * chunk_size).
  - rewrite len_map, len_range by lia. unfold chunk_size. lia.
  - apply Forall_map_range. intros i Hi.
    destruct (ram_worker_all_granted i (size_mb / threads) duration (envs i))
      as (st & Hst & Hbytes & _).
    + apply Z.div_pos; lia.
    + apply Forall_forall. intros k _. apply Hgranted.
    + apply Hdl, Hi.
    + exists st. split; assumption.
Qed.

Lemma stress_ram_size_per_thread_witness :
  exists rep,
    stress_ram (fun _ => sample_ram_env) 1030 60 4 = Ok rep /\
    requested_mb rep = 1028 /\
    total_allocated rep = 1028 * (1024 * 1024).
Proof.
  destruct (stress_ram_size_per_thread (fun _ => sample_ram_env) 1030 60 4)
    as (rep & Hrun & _ & _ & _ & Hreq & _ & _ & Htotal).
  - lia.
  - intros i Hi. apply Exists_cons_hd. reflexivity.
  - exists rep. split; [exact Hrun|]. split; [exact Hreq|].
    apply Htotal; [lia | reflexivity].
Defined.

(** C1 (as amended): for every worker count [N >= 1] whose workers see
    their budgets run out, the CPU pool holds exactly [N] results, each a
    return value or an exception, and the RAM pool ends with exactly [N]
    workers, each of which has returned, whatever failed inside it. *)
Theorem pools_hold_one_result_per_worker (f : Z -> Z) (cenv : cpu_env)
    (renvs : Z -> ram_env) (N size_mb duration : Z) :
  1 <= N ->
  (forall i, 0 <= i < N ->
     deadline_reached (cpu_ticks cenv i) (cpu_start_time cenv) duration) ->
  (forall i, 0 <= i < N ->
     deadline_reached (ram_ticks (renvs i)) (ram_start_time (renvs i)) duration) ->
  (exists results,
     cpu_pool f cenv N duration = Ok results /\
     len results = N /\
     Forall (fun r => (exists run, r = Ok run) \/ (exists e, r = Raise e))
       results /\
     forall rep,
       stress_cpu f cenv (Some N) duration = Ok rep ->
       len (cpu_results rep) = N) /\
  (exists rep,
     stress_ram renvs size_mb duration N = Ok rep /\
     len (ram_workers rep) = N /\
     Forall (fun w => exists st, w = Ok st) (ram_workers rep)).
Proof.
  intros HN Hcpu Hram. split.
  - destruct (cpu_pool_runs f cenv N duration HN Hcpu) as [Hpool Hended].
    eexists. split; [exact Hpool|].
    assert (Hlen : len (map (fun i => cpu_worker f i duration
                                        (cpu_start_time cenv)
                                        (cpu_ticks cenv i))
                            (range N)) = N)
      by (rewrite len_map; apply len_range; lia).
    split; [exact Hlen|]. split.
    + eapply Forall_impl; [exact Hended|].
      intros [run | e |] Hr; [left; eauto | right; eauto | contradiction].
    + intros rep Hrep. unfold stress_cpu in Hrep. rewrite Hpool in Hrep.
      cbn [bind] in Hrep.
      destruct (sum_get _ 0); cbn [bind] in Hrep; try discriminate.
      injection Hrep as <-. exact Hlen.
  - destruct (stress_ram_runs renvs size_mb duration N ltac:(lia) Hram)
      as (rep & Hrun & _ & Hworkers & _).
    exists rep. split; [exact Hrun|]. rewrite Hworkers. split.
    + rewrite len_map. apply len_range. lia.
    + apply Forall_map_range. intros i Hi.
      apply ram_worker_returns, Hram, Hi.
Qed.

Lemma pools_hold_one_result_per_worker_witness :
  (exists results,
     cpu_pool Z.sqrt sample_cpu_env 3 60 = Ok results /\ len results = 3) /\
  (exists rep,
     stress_ram (fun _ => sample_ram_env) 1024 60 3 = Ok rep /\
     len (ram_workers rep) = 3).
Proof.
  destruct (pools_hold_one_result_per_worker Z.sqrt sample_cpu_env
              (fun _ => sample_ram_env) 3 1024 60)
    as ((results & Hpool & Hlen & _) & (rep & Hrun & Hworkers & _)).
  - lia.
  - intros i Hi. apply Exists_cons_hd. reflexivity.
  - intros i Hi. apply Exists_cons_hd. reflexivity.
  - split; [exists results | exists rep]; split; assumption.
Defined.

(** C1, as stated, fails at [N = 0]: [stress_ram] divides by the number of
    threads and the process pool refuses to be empty. *)
Lemma pools_refuse_zero_workers :
  stress_ram (fun _ => sample_ram_env) 1024 60 0 = Raise ZeroDivisionError /\
  cpu_pool Z.sqrt sample_cpu_env 0 60 = Raise ValueError /\
  stress_cpu Z.sqrt sample_cpu_env (Some 0) 60 = Raise ValueError.
Proof. repeat split. Qed.

(** C6 (as amended): the mode string is the only part of a configuration
    that is checked before work starts.  A mode other than "server" and
    "client" is reported and nothing is started; a size or a duration is not
    looked at: with a positive number of threads [stress_ram] starts every
    worker and hands it [size_mb // threads], positive or not. *)
Theorem only_the_mode_is_checked :
  (forall (env : net_env) (mode host : string) (port duration clients : Z),
     mode <> "server"%string -> mode <> "client"%string ->
     exists rep,
       stress_network env mode host port duration clients = Ok rep /\
       net_log rep = [print_header "NETWORK STRESS TEST"; invalid_mode] /\
       List.filter is_work (net_events rep) = []) /\
  (forall (envs : Z -> ram_env) (size_mb duration threads : Z),
     0 < threads ->
     (forall i, 0 <= i < threads ->
        deadline_reached (ram_ticks (envs i)) (ram_start_time (envs i))
          duration) ->
     exists rep,
       stress_ram envs size_mb duration threads = Ok rep /\
       forall i, 0 <= i < threads ->
         In (ThreadStart i) (ram_report_log rep) /\
         In (i, size_mb / threads, duration) (ram_spawned rep)).
Proof.
  split.
  - intros env mode host port duration clients Hs Hc.
    eexists. split; [apply stress_network_invalid; assumption|].
    split; reflexivity.
  - intros envs size_mb duration threads Hthreads Hdl.
    destruct (stress_ram_runs envs size_mb duration threads ltac:(lia) Hdl)
      as (rep & Hrun & Hspawned & _ & Hstart).
    exists rep. split; [exact Hrun|]. intros i Hi.
    split; [apply Hstart, Hi|].
    rewrite Hspawned. apply in_map_iff. exists i.
    split; [reflexivity | apply in_range, Hi].
Qed.

Lemma only_the_mode_is_checked_witness :
  (exists rep,
     stress_network sample_net_env "tcp" "127.0.0.1" 9999 60 4 = Ok rep /\
     List.filter is_work (net_events rep) = []) /\
  (exists rep,
     stress_ram (fun _ => sample_ram_env) (-8) (-5) 2 = Ok rep /\
     In (ThreadStart 1) (ram_report_log rep) /\
     In (1, -4, -5) (ram_spawned rep)).
Proof.
  destruct only_the_mode_is_checked as [Hmode Hram]. split.
  - edestruct Hmode as (rep & Hrun & _ & Hwork);
      [| | exists rep; split; [exact Hrun | exact Hwork]]; discriminate.
  - destruct (Hram (fun _ => sample_ram_env) (-8) (-5) 2)
      as (rep & Hrun & Hall).
    + lia.
    + intros i Hi. apply Exists_cons_hd. reflexivity.
    + exists rep. split; [exact Hrun|]. apply (Hall 1). lia.
Defined.

(** C6, as stated, fails: with 2 MB for 4 threads the size per thread is 0,
    and the four workers are started all the same. *)
Lemma stress_ram_starts_empty_workers :
  exists rep,
    stress_ram (fun _ => sample_ram_env) 2 60 4 = Ok rep /\
    2 / 4 = 0 /\
    ram_spawned rep = [(0, 0, 60); (1, 0, 60); (2, 0, 60); (3, 0, 60)] /\
    List.filter (fun e => match e with ThreadStart _ => true | _ => false end)
      (ram_report_log rep)
    = [ThreadStart 0; ThreadStart 1; ThreadStart 2; ThreadStart 3].
Proof.
  eexists. split; [vm_compute; reflexivity|]. repeat split.
Qed.

(** ** Trial division and prime numbers *)

Lemma in_range3_unit (a b x : Z) : In x (range3 a b 1) <-> a <= x < b.
Proof.
  rewrite range3_spec by lia. split.
  - intros (k & Hk & -> & Hlt). lia.
  - intros Hx. exists (x - a). lia.
Qed.

Lemma primeb_prime (n : Z) : primeb n = true <-> Z.prime n.
Proof.
  unfold primeb, Z.prime. rewrite andb_true_iff, Z.ltb_lt, forallb_forall.
  split; intros [Hn Hnone]; (split; [exact Hn|]).
  - intros d Hd Hdiv. apply Z.mod_divide in Hdiv; [|lia].
    specialize (Hnone d). rewrite in_range3_unit in Hnone.
    rewrite Hdiv in Hnone. specialize (Hnone ltac:(lia)). discriminate.
  - intros d Hd. apply in_range3_unit in Hd.
    apply negb_true_iff, Z.eqb_neq. intros Hmod.
    apply (Hnone d); [lia|]. apply Z.mod_divide; [lia | exact Hmod].
Qed.

Lemma forallb_false {A : Type} (p : A -> bool) (l : list A) :
  forallb p l = false -> exists x, In x l /\ p x = false.
Proof.
  induction l as [|a l IH]; simpl; [discriminate|].
  destruct (p a) eqn:Ha; simpl.
  - intros H. destruct (IH H) as (x & Hx & Hpx). exists x. auto.
  - intros _. exists a. auto.
Qed.

(** A number that is not prime has a divisor between 2 and its integer
    square root. *)
Lemma small_divisor (n : Z) :
  2 <= n -> ~ Z.prime n ->
  exists d, 2 <= d <= Z.sqrt n /\ n mod d = 0.
Proof.
  intros Hn Hnp.
  assert (Hb : primeb n = false).
  { apply not_true_iff_false. rewrite primeb_prime. exact Hnp. }
  unfold primeb in Hb. apply andb_false_iff in Hb as [Hb | Hb];
    [apply Z.ltb_ge in Hb; lia|].
  apply forallb_false in Hb as (d & Hd & Hdiv).
  apply in_range3_unit in Hd.
  apply negb_false_iff, Z.eqb_eq in Hdiv.
  pose proof (Z.div_mod n d ltac:(lia)) as He. rewrite Hdiv in He.
  set (e := n / d) in *.
  assert (He1 : 1 < e) by nia.
  destruct (Z.le_gt_cases d e) as [Hde | Hed].
  - exists d. split; [|exact Hdiv].
    split; [lia|]. apply Z.sqrt_le_square; nia.
  - exists e. split.
    + split; [lia|]. apply Z.sqrt_le_square; nia.
    + replace n with (d * e) by lia. apply Z.mod_mul. lia.
Qed.

Lemma divisor_of_odd (n d : Z) :
  0 < d -> n mod 2 <> 0 -> n mod d = 0 -> d mod 2 = 1.
Proof.
  intros Hd Hodd Hdiv.
  pose proof (Z.mod_pos_bound d 2 ltac:(lia)) as Hb.
  destruct (Z.eq_dec (d mod 2) 0) as [Hev | Hne]; [|lia].
  exfalso. apply Hodd.
  pose proof (Z.div_mod n d ltac:(lia)) as Hn.
  pose proof (Z.div_mod d 2 ltac:(lia)) as Hd2.
  rewrite Hdiv in Hn. rewrite Hev in Hd2.
  replace n with ((d / 2 * (n / d)) * 2) by nia.
  apply Z.mod_mul. lia.
Qed.

Lemma prime_no_divisor (n d : Z) :
  Z.prime n -> 1 < d < n -> n mod d <> 0.
Proof.
  intros [_ Hp] Hd Hmod. apply (Hp d Hd). apply Z.mod_divide; [lia | exact Hmod].
Qed.

(** The loop of [is_prime] decides primality of an odd [n >= 3] for every
    bound from the integer square root up to [n - 1]. *)
Lemma trial_loop_prime (n bound : Z) :
  3 <= n -> n mod 2 <> 0 -> Z.sqrt n <= bound < n ->
  trial_loop n (range3 3 (bound + 1) 2) = true <-> Z.prime n.
Proof.
  intros Hn Hodd Hbound. rewrite trial_loop_true. split.
  - intros Hnone. destruct (primeb n) eqn:Hb; [apply primeb_prime, Hb|].
    exfalso.
    assert (Hnp : ~ Z.prime n).
    { rewrite <- primeb_prime, Hb. discriminate. }
    destruct (small_divisor n ltac:(lia) Hnp) as (d & Hd & Hdiv).
    pose proof (divisor_of_odd n d ltac:(lia) Hodd Hdiv) as Hdodd.
    apply (Hnone d); [|exact Hdiv].
    apply odd_candidates. split; [|exact Hdodd].
    assert (d <> 2) by (intros ->; discriminate). lia.
  - intros Hp i Hi. apply odd_candidates in Hi as [Hi _].
    apply prime_no_divisor; [exact Hp | lia].
Qed.

(** X1: [is_prime] decides primality.  For every [n] below 3 or even, and
    for every odd [n >= 3] in the double range on which [int(n ** 0.5)] is
    not below the integer square root and is below [n], [is_prime n] returns
    true exactly when [n] is a prime number. *)
Theorem is_prime_decides_primality (f : Z -> Z) (n : Z) :
  n < 3 \/ n mod 2 = 0 \/ (n < float_overflow /\ Z.sqrt n <= f n < n) ->
  exists b, is_prime f n = Ok b /\ (b = true <-> Z.prime n).
Proof.
  intros Hn.
  destruct (Z.lt_ge_cases n 2) as [Hlt | Hge].
  { exists false. split; [apply is_prime_small, Hlt|].
    split; [discriminate|]. intros [Hp _]. lia. }
  destruct (Z.eq_dec n 2) as [-> | Hne].
  { exists true. split; [reflexivity|].
    split; [intros _; apply primeb_prime; reflexivity | reflexivity]. }
  destruct (Z.eq_dec (n mod 2) 0) as [Hev | Hodd].
  { exists false. split; [apply is_prime_even; [lia | exact Hev]|].
    split; [discriminate|]. intros Hp. exfalso.
    apply (prime_no_divisor n 2 Hp); [lia | exact Hev]. }
  destruct Hn as [Hn | [Hn | [Hfl Hf]]]; [lia | contradiction |].
  eexists. split; [apply is_prime_odd; [lia | exact Hodd | exact Hfl]|].
  apply trial_loop_prime; [lia | exact Hodd | exact Hf].
Qed.

Lemma is_prime_decides_primality_witness :
  exists b,
    is_prime (fun n => Z.sqrt n + 1) 97 = Ok b /\ (b = true <-> Z.prime 97).
Proof.
  apply (is_prime_decides_primality (fun n => Z.sqrt n + 1) 97).
  right. right. split; [reflexivity|]. change (Z.sqrt 97) with 9. lia.
Defined.

Lemma counts_as_prime_primeb (f : Z -> Z) (n : Z) :
  n < 3 \/ n mod 2 = 0 \/ (n < float_overflow /\ Z.sqrt n <= f n < n) ->
  counts_as_prime f n = primeb n.
Proof.
  intros Hn. unfold counts_as_prime.
  destruct (Z.lt_ge_cases n 3) as [Hlt | Hge].
  { destruct (Z.lt_ge_cases n 2) as [Hlt2 | Hge2].
    - rewrite is_prime_small by exact Hlt2. symmetry.
      apply not_true_iff_false. rewrite primeb_prime. intros [Hp _]. lia.
    - assert (n = 2) as -> by lia. reflexivity. }
  destruct (Z.eq_dec (n mod 2) 0) as [Hev | Hodd].
  { rewrite is_prime_even by (lia || exact Hev). symmetry.
    apply not_true_iff_false. rewrite primeb_prime. intros Hp.
    apply (prime_no_divisor n 2 Hp); [lia | exact Hev]. }
  destruct Hn as [Hn | [Hn | [Hfl Hf]]]; [lia | contradiction |].
  rewrite is_prime_odd by (lia || assumption).
  pose proof (trial_loop_prime n (f n) Hge Hodd Hf) as Hloop.
  rewrite <- primeb_prime in Hloop.
  destruct (trial_loop n (range3 3 (f n + 1) 2)), (primeb n);
    try reflexivity.
  - symmetry. apply Hloop. reflexivity.
  - apply Hloop. reflexivity.
Qed.

Lemma filter_ext_in_Z (p q : Z -> bool) (l : list Z) :
  (forall x, In x l -> p x = q x) -> List.filter p l = List.filter q l.
Proof.
  induction l as [|x l IH]; intros H; [reflexivity|].
  simpl. rewrite (H x) by (left; reflexivity).
  rewrite IH by (intros y Hy; apply H; right; exact Hy). reflexivity.
Qed.

(** X2: a CPU worker returns the number of primes it walked past.  If the
    budget lasts [k] iterations and the square roots of the numbers tested
    come out between the integer square root and the number itself, the
    worker returns the number of primes among 2, ..., [k + 1]. *)
Theorem cpu_worker_counts_the_primes (f : Z -> Z) (worker_id duration : Z)
    (start_time : Q) (pre : list Q) (now : Q) (post : list Q) :
  Forall (fun t => within_budget t start_time duration = true) pre ->
  expired now start_time duration = true ->
  2 + len pre <= float_overflow ->
  (forall n, 3 <= n < 2 + len pre -> Z.sqrt n <= f n < n) ->
  exists run,
    cpu_worker f worker_id duration start_time (pre ++ now :: post) = Ok run /\
    cpu_count run = len (List.filter primeb (range3 2 (2 + len pre) 1)).
Proof.
  intros Hpre Hnow Hfl Hf. unfold cpu_worker.
  rewrite (cpu_loop_runs f start_time duration pre now post 0 2 []
             Hpre Hnow Hfl).
  cbn [bind]. eexists. split; [reflexivity|]. cbn [cpu_count fst].
  rewrite range3_unit by (unfold len; lia).
  unfold len. rewrite Nat2Z.id. rewrite Z.add_0_l. f_equal. f_equal.
  apply filter_ext_in_Z. intros n Hn.
  apply range_from_spec in Hn as (j & Hj & ->).
  apply counts_as_prime_primeb.
  destruct (Z.lt_ge_cases (2 + j * 1) 3) as [Hlt | Hge]; [left; exact Hlt|].
  right. right. unfold len in *. split; [lia|]. apply Hf. lia.
Qed.

Lemma cpu_worker_counts_the_primes_witness :
  exists run,
    cpu_worker Z.sqrt 0 1 0 ([0; 0; 0; 0; 0; 0] ++ 1 :: [])%Q = Ok run /\
    cpu_count run = 4.
Proof.
  destruct (cpu_worker_counts_the_primes Z.sqrt 0 1 0
              [0; 0; 0; 0; 0; 0]%Q 1%Q [])
    as (run & Hrun & Hcount).
  - repeat constructor.
  - reflexivity.
  - vm_compute. discriminate.
  - intros n Hn. unfold len in Hn. simpl in Hn.
    assert (Hcases : n = 3 \/ n = 4 \/ n = 5 \/ n = 6 \/ n = 7) by lia.
    destruct Hcases as [-> | [-> | [-> | [-> | ->]]]]; vm_compute;
      (split; [discriminate | reflexivity]).
  - exists run. split; [exact Hrun|]. rewrite Hcount. reflexivity.
Defined.

(** ** The memory of a RAM worker *)

Lemma new_chunk_holds (i : Z) :
  exists b, new_chunk true i = Ok b /\ chunk_holds i (i mod 256) b.
Proof.
  destruct (new_chunk_spec i) as (b & Hb & Hlen & Hset & Hzero).
  exists b. split; [exact Hb|]. split; [exact Hlen|].
  intros j Hj. destruct (Z.eqb_spec j 0) as [-> | Hj0].
  - apply Hset, in_touched_offsets. split; [exact Hj | reflexivity].
  - destruct (Z.eqb_spec (j mod 4096) 0) as [Hmod | Hmod].
    + apply Hset, in_touched_offsets. split; assumption.
    + apply Hzero; assumption.
Qed.

Lemma touch_chunk (c first : Z) (b : block) :
  chunk_holds c first b ->
  exists b', touch b = Ok b' /\ chunk_holds c ((first + 1) mod 256) b'.
Proof.
  intros [Hlen Hbytes]. pose proof chunk_size_pos as Hpos.
  unfold touch.
  destruct (getitem_in_range b 0) as (v & Hv & Hlookup); [lia|].
  rewrite (Hbytes 0 ltac:(lia)) in Hlookup. cbn [Z.eqb] in Hlookup.
  injection Hlookup as <-.
  rewrite Hv. cbn [bind].
  rewrite setitem_in_range; [|lia | apply Z.mod_pos_bound; lia].
  eexists. split; [reflexivity|]. split.
  - unfold len in *. rewrite length_insert. exact Hlen.
  - intros j Hj. destruct (Z.eqb_spec j 0) as [-> | Hj0].
    + apply list_lookup_insert_eq. unfold len in Hlen. lia.
    + rewrite list_lookup_insert_ne by lia.
      rewrite (Hbytes j Hj). destruct (Z.eqb_spec j 0); [contradiction|].
      reflexivity.
Qed.

(** Whether the chunk at position [p] belongs to the slice that starts
    [skip] chunks further on and takes every 10th chunk. *)
Lemma touch_every_10th_spec (blocks : list block) :
  forall (skip : nat) (firsts : nat -> Z) (base : nat),
    (skip <= 9)%nat ->
    (forall p, (p < length blocks)%nat ->
       exists b, blocks !! p = Some b /\
                 chunk_holds (Z.of_nat (base + p)) (firsts p) b) ->
    exists blocks',
      touch_every_10th skip blocks = Ok blocks' /\
      length blocks' = length blocks /\
      forall p, (p < length blocks)%nat ->
        exists b', blocks' !! p = Some b' /\
          chunk_holds (Z.of_nat (base + p))
            (if (Nat.leb skip p)
                && ((Z.of_nat p - Z.of_nat skip) mod 10 =? 0)
             then (firsts p + 1) mod 256 else firsts p) b'.
Proof.
  induction blocks as [|b rest IH]; intros skip firsts base Hskip Hall.
  - exists []. split; [reflexivity|]. split; [reflexivity|].
    intros p Hp. simpl in Hp. lia.
  - destruct (Hall 0%nat ltac:(simpl; lia)) as (b0 & Hb0 & Hhold0).
    simpl in Hb0. injection Hb0 as <-.
    assert (Hrest : forall p, (p < length rest)%nat ->
              exists b1, rest !! p = Some b1 /\
                chunk_holds (Z.of_nat (S base + p)) (firsts (S p)) b1).
    { intros p Hp. destruct (Hall (S p) ltac:(simpl; lia)) as (b1 & Hb1 & Hh).
      exists b1. split; [exact Hb1|].
      replace (S base + p)%nat with (base + S p)%nat by lia. exact Hh. }
    destruct skip as [|k]; cbn [touch_every_10th].
    + destruct (touch_chunk _ _ _ Hhold0) as (b' & Hb' & Hhold').
      destruct (IH 9%nat (fun p => firsts (S p)) (S base) ltac:(lia) Hrest)
        as (rest' & Hr & Hlen & Hspec).
      rewrite Hb'. cbn [bind]. rewrite Hr. cbn [bind].
      eexists. split; [reflexivity|]. split; [simpl; congruence|].
      intros [|p] Hp.
      * exists b'. split; [reflexivity|]. exact Hhold'.
      * destruct (Hspec p ltac:(simpl in Hp; lia)) as (b1 & Hb1 & Hh1).
        exists b1. split; [exact Hb1|].
        replace (base + S p)%nat with (S base + p)%nat by lia.
        replace ((0 <=? S p)%nat
                 && ((Z.of_nat (S p) - Z.of_nat 0) mod 10 =? 0))
          with ((9 <=? p)%nat && ((Z.of_nat p - Z.of_nat 9) mod 10 =? 0));
          [exact Hh1|].
        replace (Z.of_nat (S p) - Z.of_nat 0) with (Z.of_nat p - Z.of_nat 9 + 1 * 10)
          by lia.
        rewrite Z.mod_add by lia. change (0 <=? S p)%nat with true.
        destruct (Nat.leb_spec 9 p) as [Hle | Hgt]; [reflexivity|].
        cbn [andb]. symmetry. apply Z.eqb_neq.
        intros H. apply Z.mod_divide in H; [|lia]. destruct H as [q Hq]. lia.
    + destruct (IH k (fun p => firsts (S p)) (S base) ltac:(lia) Hrest)
        as (rest' & Hr & Hlen & Hspec).
      rewrite Hr. cbn [bind].
      eexists. split; [reflexivity|]. split; [simpl; congruence|].
      intros [|p] Hp.
      * exists b. split; [reflexivity|]. exact Hhold0.
      * destruct (Hspec p ltac:(simpl in Hp; lia)) as (b1 & Hb1 & Hh1).
        exists b1. split; [exact Hb1|].
        replace (base + S p)%nat with (S base + p)%nat by lia.
        replace (Z.of_nat (S p) - Z.of_nat (S k))
          with (Z.of_nat p - Z.of_nat k) by lia.
        exact Hh1.
Qed.

Lemma first_byte_next (c k : Z) :
  (if c mod 10 =? 0 then (first_byte c k + 1) mod 256 else first_byte c k)
  = first_byte c (k + 1).
Proof.
  unfold first_byte. destruct (c mod 10 =? 0); [|reflexivity].
  rewrite Z.add_mod_idemp_l by lia. f_equal. lia.
Qed.

(** One round of the hold loop. *)
Lemma hold_round (k : Z) (blocks : list block) :
  chunks_after k blocks ->
  exists blocks',
    touch_every_10th 0 blocks = Ok blocks' /\
    length blocks' = length blocks /\
    chunks_after (k + 1) blocks'.
Proof.
  intros Hk.
  destruct (touch_every_10th_spec blocks 0%nat
              (fun p => first_byte (Z.of_nat p) k) 0%nat ltac:(lia))
    as (blocks' & Hrun & Hlen & Hspec).
  { intros p Hp. exact (Hk p Hp). }
  exists blocks'. split; [exact Hrun|]. split; [exact Hlen|].
  intros c Hc. rewrite Hlen in Hc.
  destruct (Hspec c Hc) as (b' & Hb' & Hhold).
  exists b'. split; [exact Hb'|].
  cbn [Nat.leb andb Nat.add] in Hhold.
  rewrite Z.sub_0_r, first_byte_next in Hhold. exact Hhold.
Qed.

Lemma sleeps_app (l1 l2 : list event) : sleeps (l1 ++ l2) = sleeps l1 + sleeps l2.
Proof.
  unfold sleeps, len. rewrite List.filter_app, length_app. lia.
Qed.

Lemma hold_loop_rounds (start_time : Q) (duration : Z) (pre : list Q)
    (now : Q) (post : list Q) :
  forall (st : ram_state) (k : Z),
    chunks_after k (memory_blocks st) ->
    Forall (fun t => within_budget t start_time duration = true) pre ->
    expired now start_time duration = true ->
    exists st',
      hold_loop (pre ++ now :: post) start_time duration st = (st', Ok tt) /\
      chunks_after (k + len pre) (memory_blocks st') /\
      length (memory_blocks st') = length (memory_blocks st) /\
      sleeps (ram_log st') = sleeps (ram_log st) + len pre.
Proof.
  induction pre as [|t pre IH]; intros st k Hk Hpre Hnow.
  - cbn [app hold_loop]. unfold expired in Hnow.
    apply negb_true_iff in Hnow. rewrite Hnow.
    exists st. split; [reflexivity|]. unfold len. simpl.
    rewrite !Z.add_0_r. split; [exact Hk|]. split; reflexivity.
  - apply Forall_cons in Hpre as [Ht Hpre].
    destruct (hold_round k (memory_blocks st) Hk) as (blocks' & Hrun & Hlen & Hk').
    cbn [app hold_loop]. rewrite Ht, Hrun.
    destruct (IH {| memory_blocks := blocks';
                    ram_log := ram_log st ++ [Sleep (1 # 10)] |} (k + 1))
      as (st' & Hloop & Hchunks & Hlen' & Hsleeps); try assumption.
    exists st'. split; [exact Hloop|].
    cbn [memory_blocks ram_log] in *. unfold len in *. simpl length.
    split; [|split; [congruence|]].
    + replace (k + Z.of_nat (S (length pre)))
        with (k + 1 + Z.of_nat (length pre)) by lia.
      exact Hchunks.
    + rewrite Hsleeps, sleeps_app. unfold sleeps, len. simpl. lia.
Qed.

Lemma chunks_after_snoc (blocks : list block) (b : block) :
  chunks_after 0 blocks ->
  chunk_holds (len blocks) (len blocks mod 256) b ->
  chunks_after 0 (blocks ++ [b]).
Proof.
  intros Hblocks Hb c Hc. rewrite length_app in Hc. simpl in Hc.
  destruct (Nat.lt_ge_cases c (length blocks)) as [Hlt | Hge].
  - destruct (Hblocks c Hlt) as (b0 & Hb0 & Hh).
    exists b0. split; [|exact Hh]. rewrite lookup_app_l by exact Hlt. exact Hb0.
  - assert (c = length blocks) as -> by lia.
    exists b. split.
    + rewrite lookup_app_r by lia. rewrite Nat.sub_diag. reflexivity.
    + unfold first_byte. rewrite Z.add_0_r.
      destruct (_ =? 0); exact Hb.
Qed.

Lemma allocate_loop_chunks (worker_id : Z) (granted : Z -> bool) (n : nat) :
  forall (st : ram_state),
    chunks_after 0 (memory_blocks st) ->
    (forall i, In i (range_from n (len (memory_blocks st)) 1) ->
               granted i = true) ->
    exists st',
      allocate_loop worker_id granted
        (range_from n (len (memory_blocks st)) 1) st = (st', Ok tt) /\
      chunks_after 0 (memory_blocks st') /\
      length (memory_blocks st') = (length (memory_blocks st) + n)%nat /\
      sleeps (ram_log st') = sleeps (ram_log st).
Proof.
  induction n as [|n IH]; intros st Hchunks Hgranted.
  - exists st. split; [reflexivity|]. split; [exact Hchunks|].
    split; [lia | reflexivity].
  - cbn [range_from allocate_loop].
    rewrite (Hgranted (len (memory_blocks st))) by (left; reflexivity).
    destruct (new_chunk_holds (len (memory_blocks st))) as (b & Hb & Hhold).
    rewrite Hb.
    match goal with
    | |- context [allocate_loop _ _ _ ?s] => set (st2 := s)
    end.
    assert (Hblocks2 : memory_blocks st2 = memory_blocks st ++ [b])
      by (subst st2; destruct (_ =? 0); reflexivity).
    assert (Hsleeps2 : sleeps (ram_log st2) = sleeps (ram_log st)).
    { subst st2. destruct (_ =? 0); [|reflexivity].
      cbn [ram_emit ram_log]. rewrite sleeps_app. unfold sleeps, len. simpl. lia. }
    assert (Hlen2 : len (memory_blocks st2) = len (memory_blocks st) + 1).
    { rewrite Hblocks2. unfold len. rewrite length_app. simpl. lia. }
    clearbody st2.
    destruct (IH st2) as (st' & Hrun & Hchunks' & Hlen' & Hsleeps').
    { rewrite Hblocks2. apply chunks_after_snoc; assumption. }
    { intros i Hi. apply Hgranted. right. rewrite <- Hlen2. exact Hi. }
    exists st'. rewrite <- Hlen2. split; [exact Hrun|].
    split; [exact Hchunks'|]. split; [|congruence].
    rewrite Hlen', Hblocks2, length_app. simpl. lia.
Qed.

(** X3: the memory a RAM worker ends with.  When every allocation is granted
    and the budget lasts [k] rounds of the hold loop, the worker ends holding
    [size_mb] chunks, having slept [k] times; in chunk [c] the first byte is
    [(c + k) mod 256] if [c] is a multiple of 10 and [c mod 256] otherwise,
    the other offsets that are multiples of 4096 hold [c mod 256], and every
    other byte is zero. *)
Theorem ram_worker_memory (worker_id size_mb duration : Z) (env : ram_env)
    (pre : list Q) (now : Q) (post : list Q) :
  0 <= size_mb ->
  (forall i, 0 <= i < size_mb -> ram_granted env i = true) ->
  ram_ticks env = pre ++ now :: post ->
  Forall (fun t => within_budget t (ram_start_time env) duration = true) pre ->
  expired now (ram_start_time env) duration = true ->
  exists st,
    ram_worker worker_id size_mb duration env = Ok st /\
    len (memory_blocks st) = size_mb /\
    sleeps (ram_log st) = len pre /\
    forall c j, 0 <= c < size_mb -> 0 <= j < chunk_size ->
      exists b,
        memory_blocks st !! Z.to_nat c = Some b /\
        b !! Z.to_nat j = Some (expected_byte c j (len pre)).
Proof.
  intros Hsize Hgranted Hticks Hpre Hnow. unfold ram_worker, ram_try.
  set (st0 := {| memory_blocks := []; ram_log := _ |}).
  rewrite range_unit by exact Hsize.
  destruct (allocate_loop_chunks worker_id (ram_granted env)
              (Z.to_nat size_mb) st0)
    as (st1 & Hrun & Hchunks1 & Hlen1 & Hsleeps1).
  { intros c Hc. simpl in Hc. lia. }
  { intros i Hi. apply Hgranted.
    apply in_range. rewrite range_unit by exact Hsize. exact Hi. }
  change (len (memory_blocks st0)) with 0 in Hrun. rewrite Hrun, Hticks.
  match goal with
  | |- context [hold_loop _ _ _ ?s] =>
      destruct (hold_loop_rounds (ram_start_time env) duration pre now post
                  s 0 Hchunks1 Hpre Hnow)
        as (st3 & Hhold & Hchunks3 & Hlen3 & Hsleeps3)
  end.
  rewrite Hhold. eexists. split; [reflexivity|].
  cbn [ram_emit memory_blocks ram_log] in *.
  assert (Hlen : length (memory_blocks st3) = Z.to_nat size_mb)
    by (rewrite Hlen3, Hlen1; reflexivity).
  split; [unfold len; lia|]. split.
  - rewrite sleeps_app, Hsleeps3, sleeps_app, Hsleeps1.
    unfold sleeps, len. simpl. lia.
  - intros c j Hc Hj.
    destruct (Hchunks3 (Z.to_nat c) ltac:(lia)) as (b & Hb & _ & Hbytes).
    exists b. split; [exact Hb|]. rewrite (Hbytes j Hj).
    rewrite Z2Nat.id, Z.add_0_l by lia. reflexivity.
Qed.

Lemma ram_worker_memory_witness :
  exists st,
    ram_worker 0 20 60
      {| ram_granted := fun _ => true;
         ram_start_time := 0;
         ram_ticks := [0; 0] ++ 61 :: [] |}%Q = Ok st /\
    exists b, memory_blocks st !! Z.to_nat 10 = Some b /\
              b !! Z.to_nat 0 = Some 12.
Proof.
  destruct (ram_worker_memory 0 20 60
              {| ram_granted := fun _ => true;
                 ram_start_time := 0;
                 ram_ticks := [0; 0] ++ 61 :: [] |}%Q [0; 0]%Q 61%Q [])
    as (st & Hrun & _ & _ & Hbytes).
  - lia.
  - intros i Hi. reflexivity.
  - reflexivity.
  - repeat constructor.
  - reflexivity.
  - exists st. split; [exact Hrun|].
    apply (Hbytes 10 0); [lia | unfold chunk_size; lia].
Defined.

(** ** Edge cases of the RAM test *)

Lemma hold_loop_log (ticks : list Q) (start_time : Q) (duration : Z) :
  forall st,
    exists extra,
      ram_log (fst (hold_loop ticks start_time duration st))
      = ram_log st ++ extra.
Proof.
  induction ticks as [|now later IH]; intros st; cbn [hold_loop].
  - exists []. rewrite app_nil_r. reflexivity.
  - destruct (within_budget now start_time duration);
      [|exists []; rewrite app_nil_r; reflexivity].
    destruct (touch_every_10th 0 (memory_blocks st));
      try (exists []; rewrite app_nil_r; reflexivity).
    match goal with
    | |- context [hold_loop later _ _ ?s] => destruct (IH s) as (extra & ->)
    end.
    cbn [ram_log]. rewrite <- app_assoc. eexists. reflexivity.
Qed.

(** X4: a worker asked for nothing.  For every size that is not positive the
    worker never asks for memory, holds no chunk, and still reports the
    allocation of [size_mb] MB as a success before it finishes. *)
Theorem ram_worker_nothing_to_allocate (worker_id size_mb duration : Z)
    (env : ram_env) :
  size_mb <= 0 ->
  deadline_reached (ram_ticks env) (ram_start_time env) duration ->
  exists st,
    ram_worker worker_id size_mb duration env = Ok st /\
    memory_blocks st = [] /\
    allocated_bytes st = 0 /\
    In (allocation_done worker_id size_mb) (ram_log st) /\
    last (ram_log st) = Some (ram_finished worker_id).
Proof.
  intros Hsize Hdl. unfold ram_worker, ram_try.
  rewrite range_nonpos by exact Hsize. cbn [allocate_loop].
  match goal with
  | |- context [hold_loop ?t ?s ?d ?x] =>
      destruct (hold_loop_holds t s d Hdl x) as (st3 & Hhold & Hlens);
      [constructor|];
      destruct (hold_loop_log t s d x) as (extra & Hlog)
  end.
  rewrite Hhold in Hlog |- *. cbn [fst ram_emit ram_log memory_blocks] in *.
  apply map_eq_nil in Hlens.
  eexists. split; [reflexivity|]. cbn [ram_emit memory_blocks ram_log].
  split; [exact Hlens|].
  split; [unfold allocated_bytes; cbn [ram_emit memory_blocks];
          rewrite Hlens; reflexivity|].
  split; [|apply last_snoc].
  rewrite Hlog. apply in_or_app. left. apply in_or_app. left.
  right. left. reflexivity.
Qed.

Lemma ram_worker_nothing_to_allocate_witness :
  exists st,
    ram_worker 3 (-2) 60 sample_ram_env = Ok st /\
    memory_blocks st = [] /\
    In (allocation_done 3 (-2)) (ram_log st).
Proof.
  destruct (ram_worker_nothing_to_allocate 3 (-2) 60 sample_ram_env)
    as (st & Hrun & Hblocks & _ & Hlog & _).
  - lia.
  - apply Exists_cons_hd. reflexivity.
  - exists st. split; [exact Hrun|]. split; [exact Hblocks | exact Hlog].
Defined.

(** X5: [stress_ram] without workers.  With 0 threads it raises
    [ZeroDivisionError] before anything is started, whatever the size and the
    duration; with a negative number of threads it starts no worker, holds
    no memory, and completes. *)
Theorem stress_ram_without_workers (envs : Z -> ram_env)
    (size_mb duration threads : Z) :
  threads <= 0 ->
  (threads = 0 /\
   stress_ram envs size_mb duration threads = Raise ZeroDivisionError) \/
  (threads < 0 /\
   exists rep,
     stress_ram envs size_mb duration threads = Ok rep /\
     ram_spawned rep = [] /\
     ram_workers rep = [] /\
     total_allocated rep = 0 /\
     last (ram_report_log rep)
     = Some (print_status "RAM stress test completed" [] success)).
Proof.
  intros Hthreads. destruct (Z.eq_dec threads 0) as [-> | Hne].
  - left. split; reflexivity.
  - right. split; [lia|]. unfold stress_ram, floordiv.
    destruct (Z.eqb_spec threads 0); [contradiction|]. cbn [bind].
    rewrite range_nonpos by lia. cbn [map join_all forallb bind].
    eexists. split; [reflexivity|]. repeat split.
Qed.

Lemma stress_ram_without_workers_witness :
  stress_ram (fun _ => sample_ram_env) 1024 60 0 = Raise ZeroDivisionError.
Proof.
  destruct (stress_ram_without_workers (fun _ => sample_ram_env) 1024 60 0)
    as [[_ H] | [Hneg _]]; [lia | exact H | lia].
Defined.

(** ** The CPU test as a whole *)

Lemma sum_get_constant (c : Z) (results : list (result cpu_run)) :
  forall acc,
    Forall (fun r => exists run, r = Ok run /\ cpu_count run = c) results ->
    sum_get results acc = Ok (acc + len results * c).
Proof.
  induction results as [|r results IH]; intros acc Hall.
  - unfold len. simpl. f_equal. lia.
  - apply Forall_cons in Hall as [(run & -> & Hc) Hrest].
    cbn [sum_get bind]. rewrite (IH _ Hrest), Hc. f_equal.
    unfold len. simpl length. lia.
Qed.

(** X6: the CPU workers repeat each other's work.  When the workers of a
    pool see the same clock, each of them counts the same primes from 2 on,
    and the total [stress_cpu] reports is the number of workers times the
    count of one worker. *)
Theorem stress_cpu_repeats_the_work (f : Z -> Z) (env : cpu_env)
    (cores : option Z) (duration : Z) (pre : list Q) (now : Q)
    (post : list Q) :
  let n := match cores with
           | None => cpu_cores_available env
           | Some c => c
           end in
  1 <= n ->
  (forall i, 0 <= i < n -> cpu_ticks env i = pre ++ now :: post) ->
  Forall (fun t => within_budget t (cpu_start_time env) duration = true) pre ->
  expired now (cpu_start_time env) duration = true ->
  2 + len pre <= float_overflow ->
  exists rep,
    stress_cpu f env cores duration = Ok rep /\
    len (cpu_results rep) = n /\
    cpu_total_primes rep
    = n * len (List.filter (counts_as_prime f) (range3 2 (2 + len pre) 1)).
Proof.
  intros n Hn Hticks Hpre Hnow Hfl.
  assert (Hdl : forall i, 0 <= i < n ->
            deadline_reached (cpu_ticks env i) (cpu_start_time env) duration).
  { intros i Hi. rewrite (Hticks i Hi). unfold deadline_reached.
    apply Exists_app. right. apply Exists_cons_hd. exact Hnow. }
  destruct (cpu_pool_runs f env n duration Hn Hdl) as [Hpool _].
  unfold stress_cpu. fold n. rewrite Hpool. cbn [bind].
  rewrite (sum_get_constant
             (len (List.filter (counts_as_prime f)
                     (range3 2 (2 + len pre) 1)))).
  - cbn [bind]. eexists. split; [reflexivity|].
    cbn [cpu_results cpu_total_primes].
    rewrite len_map, len_range by lia. split; [reflexivity | lia].
  - apply Forall_map_range. intros i Hi. rewrite (Hticks i Hi).
    unfold cpu_worker.
    rewrite (cpu_loop_runs f (cpu_start_time env) duration pre now post
               0 2 [] Hpre Hnow Hfl).
    cbn [bind]. eexists. split; [reflexivity|]. cbn [cpu_count fst].
    rewrite range3_unit by (unfold len; lia).
    unfold len. rewrite Nat2Z.id. lia.
Qed.

Lemma stress_cpu_repeats_the_work_witness :
  exists rep,
    stress_cpu Z.sqrt
      {| cpu_cores_available := 4; cpu_start_time := 0; cpu_end_time := 2;
         cpu_ticks := fun _ => ([0; 0; 0; 0] ++ 1 :: [])%Q |}
      None 1 = Ok rep /\
    cpu_total_primes rep = 12.
Proof.
  destruct (stress_cpu_repeats_the_work Z.sqrt
              {| cpu_cores_available := 4; cpu_start_time := 0;
                 cpu_end_time := 2;
                 cpu_ticks := fun _ => ([0; 0; 0; 0] ++ 1 :: [])%Q |}
              None 1 [0; 0; 0; 0]%Q 1%Q [])
    as (rep & Hrun & _ & Htotal).
  - simpl. lia.
  - intros i Hi. reflexivity.
  - repeat constructor.
  - reflexivity.
  - vm_compute. discriminate.
  - exists rep. split; [exact Hrun|]. rewrite Htotal. reflexivity.
Defined.

(** ** A budget that is already spent *)

Lemma expired_without_budget (now start_time : Q) (duration : Z) :
  duration <= 0 -> (start_time <= now)%Q ->
  expired now start_time duration = true.
Proof.
  intros Hd Hnow. apply expired_iff.
  assert (H : (inject_Z duration <= 0)%Q).
  { change 0%Q with (inject_Z 0). rewrite <- Zle_Qle. exact Hd. }
  lra.
Qed.

(** X7: with a duration that is not positive and a clock that has not gone
    back since the start, no loop body runs: the CPU worker tests nothing and
    returns 0, the client opens no connection and sends nothing, the server
    accepts nothing. *)
Theorem nothing_runs_without_budget (f : Z -> Z) (worker_id duration : Z)
    (start_time now : Q) (host : string) (port : Z) :
  duration <= 0 -> (start_time <= now)%Q ->
  (forall later,
     exists run,
       cpu_worker f worker_id duration start_time (now :: later) = Ok run /\
       cpu_count run = 0 /\ cpu_tested run = []) /\
  (forall a later,
     exists st,
       network_client
         {| cl_start_time := start_time; cl_rounds := (now, a) :: later |}
         host port duration worker_id = (st, Ok tt) /\
       bytes_sent st = 0 /\ requests st = 0 /\
       List.filter is_work (cl_log st) = []) /\
  (forall step later,
     exists st,
       network_server
         {| srv_bind := Ok tt; srv_start_time := start_time;
            srv_rounds := (now, step) :: later |}
         host port duration = Ok st /\
       connections st = 0 /\ bytes_received st = 0 /\
       accepted_count (srv_log st) = 0).
Proof.
  intros Hd Hnow.
  pose proof (expired_without_budget now start_time duration Hd Hnow) as Hexp.
  unfold expired in Hexp. apply negb_true_iff in Hexp.
  split; [|split].
  - intros later. unfold cpu_worker. cbn [cpu_loop]. rewrite Hexp.
    cbn [bind]. eexists. repeat split.
  - intros a later. unfold network_client.
    cbn [client_loop cl_rounds cl_start_time]. rewrite Hexp.
    eexists. repeat split.
  - intros step later. unfold network_server.
    cbn [bind srv_bind accept_loop srv_rounds srv_start_time]. rewrite Hexp.
    eexists. repeat split.
Qed.

Lemma nothing_runs_without_budget_witness :
  exists run,
    cpu_worker Z.sqrt 0 0 5 [5%Q] = Ok run /\
    cpu_count run = 0 /\ cpu_tested run = [].
Proof.
  destruct (nothing_runs_without_budget Z.sqrt 0 0 5 5 "127.0.0.1" 9999)
    as (Hcpu & _).
  - lia.
  - vm_compute. discriminate.
  - apply (Hcpu []).
Defined.

(** ** The server's counters *)

Lemma received_total_app (l1 l2 : list event) :
  received_total (l1 ++ l2) = received_total l1 + received_total l2.
Proof.
  unfold received_total. induction l1 as [|e l1 IH]; simpl; [reflexivity|].
  destruct e; rewrite ?IH; lia.
Qed.

Lemma sent_total_app (l1 l2 : list event) :
  sent_total (l1 ++ l2) = sent_total l1 + sent_total l2.
Proof.
  unfold sent_total. induction l1 as [|e l1 IH]; simpl; [reflexivity|].
  destruct e; rewrite ?IH; lia.
Qed.

Lemma accepted_count_app (l1 l2 : list event) :
  accepted_count (l1 ++ l2) = accepted_count l1 + accepted_count l2.
Proof.
  unfold accepted_count, len. rewrite List.filter_app, length_app. lia.
Qed.

Lemma serve_connection_counters (reads : list recv_step) :
  forall st,
    server_invariant st ->
    server_invariant (fst (serve_connection reads st)) /\
    (echo_succeeds (AcceptOk "" reads (Ok tt)) ->
     echoed st -> echoed (fst (serve_connection reads st))).
Proof.
  unfold server_invariant, echoed, echo_succeeds.
  induction reads as [|r rest IH]; intros st Hinv; cbn [serve_connection].
  - split; [exact Hinv | intros _ H; exact H].
  - destruct r as [n echo | | e]; cbn [fst];
      try (split; [exact Hinv | intros _ H; exact H]).
    destruct Hinv as [Hbytes Hconn].
    assert (Hinv1 :
      bytes_received st + n = received_total (srv_log st ++ [Received n]) /\
      connections st = accepted_count (srv_log st ++ [Received n])).
    { rewrite received_total_app, accepted_count_app, Hbytes, Hconn.
      unfold received_total, accepted_count, len. simpl. lia. }
    destruct echo as [[] | e |]; cbn [fst].
    + match goal with
      | |- context [serve_connection rest ?s] => destruct (IH s) as [IH1 IH2]
      end.
      { cbn [srv_emit bytes_received connections srv_log].
        rewrite received_total_app, accepted_count_app.
        destruct Hinv1 as [<- <-].
        unfold received_total, accepted_count, len. simpl. lia. }
      split; [exact IH1|]. intros Hall Hecho.
      apply Forall_cons in Hall as [_ Hall]. apply IH2; [exact Hall|].
      cbn [srv_emit srv_log].
      rewrite !sent_total_app, !received_total_app, Hecho.
      unfold sent_total, received_total. simpl. lia.
    + split; [exact Hinv1|]. intros Hall. apply Forall_cons in Hall as [[] _].
    + split; [exact Hinv1|]. intros Hall. apply Forall_cons in Hall as [[] _].
Qed.

(** Events that move no byte and accept no connection leave the agreement
    between counters and log as it is. *)
Lemma srv_emit_inert (es : list event) (st : server_state) :
  received_total es = 0 -> sent_total es = 0 -> accepted_count es = 0 ->
  (server_invariant st -> server_invariant (srv_emit es st)) /\
  (echoed st -> echoed (srv_emit es st)).
Proof.
  intros Hr Hs Ha. unfold server_invariant, echoed.
  cbn [srv_emit bytes_received connections srv_log].
  rewrite received_total_app, sent_total_app, accepted_count_app, Hr, Hs, Ha.
  rewrite !Z.add_0_r. split; intros H; exact H.
Qed.

Lemma serve_one_counters (step : accept_step) (st : server_state) :
  server_invariant st ->
  server_invariant (fst (serve_one step st)) /\
  (echo_succeeds step -> echoed st -> echoed (fst (serve_one step st))).
Proof.
  intros Hinv. destruct step as [e | addr reads close]; cbn [serve_one].
  - split; [exact Hinv | intros _ H; exact H].
  - match goal with
    | |- context [serve_connection reads ?s] =>
        set (st1 := s);
        assert (Hinv1 : server_invariant st1);
        [|assert (Hecho1 : echoed st -> echoed st1)]
    end.
    { destruct Hinv as [Hbytes Hconn]. unfold server_invariant. subst st1.
      cbn [bytes_received connections srv_log].
      rewrite received_total_app, accepted_count_app, Hbytes, Hconn.
      unfold received_total, accepted_count, len. simpl. lia. }
    { unfold echoed. subst st1. cbn [srv_log].
      rewrite sent_total_app, received_total_app. intros ->.
      unfold sent_total, received_total. simpl. lia. }
    clearbody st1.
    destruct (serve_connection_counters reads st1 Hinv1) as [Hinv2 Hecho2].
    destruct (serve_connection reads st1) as [st2 r]. cbn [fst] in *.
    destruct (srv_emit_inert [SocketClose] st2 eq_refl eq_refl eq_refl)
      as [Hclose1 Hclose2].
    destruct r as [[] | e |]; cbn [fst]; [|auto|auto].
    destruct close as [[] | e |]; cbn [fst]; auto.
Qed.

Lemma accept_loop_counters (start_time : Q) (duration : Z)
    (rounds : list (Q * accept_step)) :
  forall st,
    server_invariant st ->
    server_invariant (fst (accept_loop rounds start_time duration st)) /\
    (Forall (fun r => echo_succeeds (snd r)) rounds ->
     echoed st ->
     echoed (fst (accept_loop rounds start_time duration st))).
Proof.
  induction rounds as [|[now step] later IH]; intros st Hinv;
    cbn [accept_loop].
  - split; [exact Hinv | intros _ H; exact H].
  - destruct (within_budget now start_time duration);
      [|split; [exact Hinv | intros _ H; exact H]].
    destruct (serve_one_counters step st Hinv) as [Hinv1 Hecho1].
    destruct (serve_one step st) as [st1 r]. cbn [fst] in *.
    assert (Hnext : forall s,
              server_invariant s ->
              (echo_succeeds step -> echoed st -> echoed s) ->
              server_invariant
                (fst (accept_loop later start_time duration s)) /\
              (Forall (fun r => echo_succeeds (snd r)) ((now, step) :: later) ->
               echoed st ->
               echoed (fst (accept_loop later start_time duration s)))).
    { intros s Hs Hes. destruct (IH s Hs) as [IH1 IH2].
      split; [exact IH1|]. intros Hall Hecho.
      apply Forall_cons in Hall as [Hstep Hall]. cbn [snd] in Hstep.
      apply IH2; [exact Hall | apply Hes; assumption]. }
    destruct r as [[] | e |].
    + apply Hnext; assumption.
    + assert (Herr : forall e',
                server_invariant
                  (srv_emit [print_status "Server error: {e}" [AExn e'] error]
                     st1) /\
                (echoed st1 ->
                 echoed
                   (srv_emit [print_status "Server error: {e}" [AExn e'] error]
                      st1))).
      { intros e'.
        destruct (srv_emit_inert
                    [print_status "Server error: {e}" [AExn e'] error] st1
                    eq_refl eq_refl eq_refl) as [H1 H2].
        split; [apply H1, Hinv1 | exact H2]. }
      destruct e; try (apply Hnext; [apply Herr | intros; apply Herr; auto]).
      apply Hnext; assumption.
    + cbn [fst]. split; [exact Hinv1|]. intros Hall Hecho.
      apply Forall_cons in Hall as [Hstep _]. apply Hecho1; assumption.
Qed.

(** X8: the server's counters are what happened on the wire.  When the
    server ends, [bytes_received] is the sum of the chunks it received and
    [connections] the number of connections it accepted; and if no echo
    failed, it has sent back exactly as many bytes as it received. *)
Theorem server_counters (env : server_env) (host : string)
    (port duration : Z) (st : server_state) :
  network_server env host port duration = Ok st ->
  bytes_received st = received_total (srv_log st) /\
  connections st = accepted_count (srv_log st) /\
  (Forall (fun r => echo_succeeds (snd r)) (srv_rounds env) ->
   sent_total (srv_log st) = bytes_received st).
Proof.
  unfold network_server. destruct (srv_bind env) as [[] | e |];
    cbn [bind]; try discriminate.
  match goal with
  | |- context [accept_loop _ _ _ ?s] =>
      destruct (accept_loop_counters (srv_start_time env) duration
                  (srv_rounds env) s) as [Hinv Hecho]
  end.
  { unfold server_invariant. cbn. split; reflexivity. }
  match goal with
  | |- context [accept_loop ?r ?s ?d ?x] => destruct (accept_loop r s d x)
      as [st2 r2]
  end.
  cbn [fst] in *. destruct r2 as [[] | e |]; try discriminate.
  intros H. injection H as <-.
  match goal with
  | |- context [srv_emit ?es st2] =>
      destruct (srv_emit_inert es st2 eq_refl eq_refl eq_refl) as [H1 H2]
  end.
  destruct (H1 Hinv) as [Hbytes Hconn].
  split; [exact Hbytes|]. split; [exact Hconn|].
  intros Hall. rewrite Hbytes. apply H2, Hecho; [exact Hall|].
  unfold echoed. reflexivity.
Qed.

Lemma server_counters_witness :
  exists st,
    network_server
      {| srv_bind := Ok tt;
         srv_start_time := 0;
         srv_rounds :=
           [ (1%Q, AcceptOk "peer"
                     [RecvData 1024 (Ok tt); RecvData 512 (Ok tt); RecvEnd]
                     (Ok tt));
             (2%Q, AcceptRaises SocketTimeout);
             (61%Q, AcceptRaises SocketTimeout) ] |}
      "127.0.0.1" 9999 60 = Ok st /\
    bytes_received st = 1536 /\
    connections st = 1 /\
    sent_total (srv_log st) = 1536.
Proof.
  eexists. split; [vm_compute; reflexivity|].
  match goal with
  | |- bytes_received ?s = _ /\ _ =>
      destruct (server_counters
                  {| srv_bind := Ok tt;
                     srv_start_time := 0;
                     srv_rounds :=
                       [ (1%Q, AcceptOk "peer"
                                 [RecvData 1024 (Ok tt); RecvData 512 (Ok tt);
                                  RecvEnd]
                                 (Ok tt));
                         (2%Q, AcceptRaises SocketTimeout);
                         (61%Q, AcceptRaises SocketTimeout) ] |}
                  "127.0.0.1" 9999 60 s)
        as (Hbytes & Hconn & Hsent)
  end.
  - vm_compute. reflexivity.
  - split; [reflexivity|]. split; [reflexivity|].
    rewrite Hsent; [reflexivity|]. repeat constructor.
Defined.

(** X9: socket errors do not stop the server.  Once the listening socket is
    bound, nothing that happens on a connection makes [network_server]
    raise; it raises exactly when binding does, and then with that
    exception. *)
Theorem server_survives_connection_errors (env : server_env) (host : string)
    (port duration : Z) :
  (srv_bind env = Ok tt ->
   forall e, network_server env host port duration <> Raise e) /\
  (forall e, srv_bind env = Raise e ->
             network_server env host port duration = Raise e).
Proof.
  split.
  - intros Hbind e. unfold network_server. rewrite Hbind. cbn [bind].
    assert (Hloop : forall rounds st,
              snd (accept_loop rounds (srv_start_time env) duration st)
              <> Raise e).
    { induction rounds as [|[now step] later IH]; intros st;
        cbn [accept_loop]; [discriminate|].
      destruct (within_budget now (srv_start_time env) duration);
        [|discriminate].
      destruct (serve_one step st) as [st1 [[] | e1 |]];
        [apply IH | destruct e1; apply IH | discriminate]. }
    match goal with
    | |- context [accept_loop ?r ?s ?d ?x] =>
        pose proof (Hloop r x) as H; destruct (accept_loop r s d x)
          as [st2 [[] | e2 |]]
    end; cbn [snd] in H; [discriminate | | discriminate].
    intros Heq. injection Heq as ->. apply H. reflexivity.
  - intros e Hbind. unfold network_server. rewrite Hbind. reflexivity.
Qed.

Lemma server_survives_connection_errors_witness :
  network_server
    {| srv_bind := Ok tt; srv_start_time := 0;
       srv_rounds := [ (1%Q, AcceptRaises OSError);
                       (2%Q, AcceptOk "peer" [RecvRaises OSError] (Ok tt)) ] |}
    "127.0.0.1" 9999 60 <> Raise OSError /\
  network_server
    {| srv_bind := Raise OSError; srv_start_time := 0; srv_rounds := [] |}
    "127.0.0.1" 9999 60 = Raise OSError.
Proof.
  split.
  - apply server_survives_connection_errors. reflexivity.
  - apply server_survives_connection_errors. reflexivity.
Defined.

(** ** More on the client's counters *)

Lemma send_loop_bound (round : Z -> round_step) (rounds : list Z) :
  forall st,
    exists m,
      0 <= m <= len rounds /\
      bytes_sent (fst (send_loop rounds round st)) = bytes_sent st + 1024 * m.
Proof.
  unfold len.
  induction rounds as [|k rest IH]; intros st; cbn [send_loop].
  - exists 0. simpl. lia.
  - destruct (round k) as [| e | e]; cbn [fst].
    + destruct (IH (cl_emit [Received (len data)] (count_bytes st)))
        as (m & Hm & ->).
      cbn [cl_emit count_bytes bytes_sent]. rewrite len_data.
      exists (m + 1). simpl length. lia.
    + exists 0. simpl length. lia.
    + cbn [count_bytes bytes_sent]. rewrite len_data.
      exists 1. simpl length. lia.
Qed.

Lemma opened_count_app (l1 l2 : list event) :
  opened_count (l1 ++ l2) = opened_count l1 + opened_count l2.
Proof.
  unfold opened_count, len. rewrite List.filter_app, length_app. lia.
Qed.

(** The sends of a connection open no socket. *)
Lemma send_loop_opens_nothing (round : Z -> round_step) (rounds : list Z) :
  forall st,
    opened_count (cl_log (fst (send_loop rounds round st)))
    = opened_count (cl_log st).
Proof.
  induction rounds as [|k rest IH]; intros st; cbn [send_loop];
    [reflexivity|].
  destruct (round k) as [| e | e]; cbn [fst].
  - rewrite IH. cbn [cl_emit count_bytes cl_log].
    rewrite !opened_count_app. unfold opened_count, len. simpl. lia.
  - reflexivity.
  - cbn [count_bytes cl_log]. rewrite opened_count_app.
    unfold opened_count, len. simpl. lia.
Qed.

(** One connection attempt opens one socket, sends at most 100 payloads and
    counts at most one request. *)
Lemma client_attempt_bound (worker_id : Z) (a : attempt) (st : client_state) :
  exists m,
    0 <= m <= 100 /\
    bytes_sent (fst (client_attempt worker_id a st)) = bytes_sent st + 1024 * m /\
    requests st <= requests (fst (client_attempt worker_id a st))
    <= requests st + 1 /\
    opened_count (cl_log (fst (client_attempt worker_id a st)))
    = opened_count (cl_log st) + 1.
Proof.
  unfold client_attempt.
  assert (Hopen : opened_count (cl_log (cl_emit [SocketOpen] st))
                  = opened_count (cl_log st) + 1).
  { cbn [cl_emit cl_log]. rewrite opened_count_app.
    unfold opened_count, len. simpl. lia. }
  destruct (att_connect a) as [[] | e |]; cbn [fst];
    try (exists 0; cbn [cl_emit bytes_sent requests] in *; lia).
  destruct (send_loop_bound (att_round a) (range 100)
              (cl_emit [Connected] (cl_emit [SocketOpen] st)))
    as (m & Hm & Hbytes).
  pose proof (send_loop_counts (att_round a) (range 100)
                (cl_emit [Connected] (cl_emit [SocketOpen] st)))
    as (Hreq & _).
  pose proof (send_loop_opens_nothing (att_round a) (range 100)
                (cl_emit [Connected] (cl_emit [SocketOpen] st)))
    as Hsame.
  assert (Hopen1 : opened_count
                     (cl_log (cl_emit [Connected] (cl_emit [SocketOpen] st)))
                   = opened_count (cl_log st) + 1).
  { cbn [cl_emit cl_log] in *. rewrite opened_count_app, Hopen.
    unfold opened_count, len. simpl. lia. }
  rewrite Hopen1 in Hsame. clear Hopen Hopen1.
  change (len (range 100)) with 100 in Hm.
  destruct (send_loop (range 100) (att_round a)
              (cl_emit [Connected] (cl_emit [SocketOpen] st)))
    as [st1 r1].
  cbn [fst cl_emit bytes_sent requests] in Hbytes, Hreq, Hsame.
  exists m. split; [exact Hm|].
  destruct r1 as [[] | e |]; cbn [fst]; try (repeat split; lia).
  destruct (att_close a) as [[] | e |]; cbn [fst];
    try (cbn [count_request bytes_sent requests cl_log]; repeat split; lia).
  destruct (_ =? 0);
    cbn [cl_emit count_request bytes_sent requests cl_log];
    rewrite ?opened_count_app;
    (split; [lia|]); (split; [lia|]);
    repeat match goal with
           | |- context [opened_count [?e]] =>
               change (opened_count [e]) with 0
           end;
    lia.
Qed.

(** The rounds of the outer loop, counted by the sockets they opened. *)
Lemma client_loop_bound (start_time : Q) (duration worker_id : Z)
    (rounds : list (Q * attempt)) :
  forall st,
    exists m k,
      opened_count
        (cl_log (fst (client_loop rounds start_time duration worker_id st)))
      = opened_count (cl_log st) + k /\
      0 <= k <= len rounds /\
      0 <= m <= 100 * k /\
      bytes_sent (fst (client_loop rounds start_time duration worker_id st))
      = bytes_sent st + 1024 * m /\
      requests st
      <= requests (fst (client_loop rounds start_time duration worker_id st))
      <= requests st + k.
Proof.
  unfold len.
  induction rounds as [|[now a] later IH]; intros st; cbn [client_loop].
  - exists 0, 0. simpl. lia.
  - simpl length.
    destruct (within_budget now start_time duration);
      [|exists 0, 0; cbn [fst]; lia].
    destruct (client_attempt_bound worker_id a st)
      as (m1 & Hm1 & Hb1 & Hr1 & Ho1).
    destruct (client_attempt worker_id a st) as [st1 r1]. cbn [fst] in *.
    assert (Hnext : forall s,
              bytes_sent s = bytes_sent st1 -> requests s = requests st1 ->
              opened_count (cl_log s) = opened_count (cl_log st1) ->
              exists m k,
                opened_count
                  (cl_log
                     (fst (client_loop later start_time duration worker_id s)))
                = opened_count (cl_log st) + k /\
                0 <= k <= Z.of_nat (S (length later)) /\
                0 <= m <= 100 * k /\
                bytes_sent
                  (fst (client_loop later start_time duration worker_id s))
                = bytes_sent st + 1024 * m /\
                requests st
                <= requests
                     (fst (client_loop later start_time duration worker_id s))
                <= requests st + k).
    { intros s Hbs Hrs Hos.
      destruct (IH s) as (m2 & k2 & Ho2 & Hk2 & Hm2 & Hb2 & Hr2).
      exists (m1 + m2), (k2 + 1). rewrite Ho2, Hb2, Hos, Hbs, Hb1, Ho1. lia. }
    destruct r1 as [[] | e |].
    + apply Hnext; reflexivity.
    + apply Hnext; try reflexivity.
      cbn [cl_emit cl_log]. rewrite opened_count_app.
      unfold opened_count at 2, len. simpl. lia.
    + exists m1, 1. cbn [fst]. lia.
Qed.

(** X10: what a client can have sent at most.  Whatever the network does,
    a client ends with at most one request and at most 100 KiB for each
    connection attempt it made, that is for each socket it opened, and its
    byte count is a whole number of 1 KiB payloads; it attempts at most one
    connection for each reading of the clock. *)
Theorem client_counters_bounded (env : client_env) (host : string)
    (port duration worker_id : Z) :
  let st := fst (network_client env host port duration worker_id) in
  let attempts := opened_count (cl_log st) in
  0 <= requests st <= attempts /\
  0 <= bytes_sent st <= 102400 * attempts /\
  bytes_sent st mod 1024 = 0 /\
  attempts <= len (cl_rounds env).
Proof.
  unfold network_client.
  match goal with
  | |- context [client_loop ?r ?s ?d ?w ?st0] =>
      destruct (client_loop_bound s d w r st0)
        as (m & k & Hopen & Hk & Hm & Hbytes & Hreq);
      destruct (client_loop r s d w st0) as [st r1]
  end.
  cbn [fst bytes_sent requests cl_log] in *.
  change (opened_count [print_status "Client Worker {worker_id} started"
                          [AInt worker_id] success]) with 0 in Hopen.
  assert (H : 0 <= requests st <= opened_count (cl_log st) /\
              0 <= bytes_sent st <= 102400 * opened_count (cl_log st) /\
              bytes_sent st mod 1024 = 0 /\
              opened_count (cl_log st) <= len (cl_rounds env)).
  { split; [lia|]. split; [lia|]. split; [|lia].
    rewrite Hbytes, Z.add_0_l, Z.mul_comm. apply Z.mod_mul. lia. }
  destruct r1 as [[] | e |];
    cbn [fst cl_emit bytes_sent requests cl_log];
    rewrite ?opened_count_app;
    try (change (opened_count
                   [print_status
                      "Client Worker {worker_id} finished - {requests} requests, {bytes_sent/1024/1024:.2f}MB sent"
                      [AInt worker_id; AInt (requests st);
                       AInt (bytes_sent st)] success]) with 0;
         rewrite Z.add_0_r);
    exact H.
Qed.

Lemma client_loop_smooth (start_time : Q) (duration worker_id : Z)
    (pre : list (Q * attempt)) (now : Q) (a : attempt)
    (post : list (Q * attempt)) :
  forall st,
    Forall (fun r => within_budget (fst r) start_time duration = true /\
                     smooth (snd r)) pre ->
    expired now start_time duration = true ->
    exists st',
      client_loop (pre ++ (now, a) :: post) start_time duration worker_id st
      = (st', Ok tt) /\
      requests st' = requests st + len pre /\
      bytes_sent st' = bytes_sent st + 102400 * len pre.
Proof.
  unfold len.
  induction pre as [|[t b] pre IH]; intros st Hpre Hnow.
  - cbn [app client_loop]. unfold expired in Hnow.
    apply negb_true_iff in Hnow. rewrite Hnow.
    exists st. simpl. split; [reflexivity | lia].
  - apply Forall_cons in Hpre as [[Ht (Hc & Hr & Hcl)] Hpre]. cbn [fst snd] in *.
    cbn [app client_loop]. rewrite Ht.
    destruct (client_attempt_completes worker_id b st Hc Hr Hcl)
      as (st1 & -> & Hb1 & Hr1).
    destruct (IH st1 Hpre Hnow) as (st' & -> & Hr' & Hb').
    exists st'. split; [reflexivity|]. simpl length. lia.
Qed.

(** X11: a client on a network where nothing fails.  If the budget lasts
    [k] rounds and every connection goes through, the client ends normally
    with [k] requests and [k * 102400] bytes sent. *)
Theorem client_on_a_smooth_network (env : client_env) (host : string)
    (port duration worker_id : Z) (pre : list (Q * attempt)) (now : Q)
    (a : attempt) (post : list (Q * attempt)) :
  cl_rounds env = pre ++ (now, a) :: post ->
  Forall (fun r => within_budget (fst r) (cl_start_time env) duration = true /\
                   smooth (snd r)) pre ->
  expired now (cl_start_time env) duration = true ->
  exists st,
    network_client env host port duration worker_id = (st, Ok tt) /\
    requests st = len pre /\
    bytes_sent st = 102400 * len pre.
Proof.
  intros Hrounds Hpre Hnow. unfold network_client. rewrite Hrounds.
  match goal with
  | |- context [client_loop _ _ _ _ ?st0] =>
      destruct (client_loop_smooth (cl_start_time env) duration worker_id
                  pre now a post st0 Hpre Hnow) as (st' & -> & Hr & Hb)
  end.
  eexists. split; [reflexivity|].
  cbn [cl_emit requests bytes_sent] in *. lia.
Qed.

Lemma client_on_a_smooth_network_witness :
  exists st,
    network_client
      {| cl_start_time := 0;
         cl_rounds := [(1%Q, smooth_attempt); (2%Q, smooth_attempt)]
                      ++ (61%Q, smooth_attempt) :: [] |}
      "127.0.0.1" 9999 60 0 = (st, Ok tt) /\
    requests st = 2 /\
    bytes_sent st = 204800.
Proof.
  apply (client_on_a_smooth_network
           {| cl_start_time := 0;
              cl_rounds := [(1%Q, smooth_attempt); (2%Q, smooth_attempt)]
                           ++ (61%Q, smooth_attempt) :: [] |}
           "127.0.0.1" 9999 60 0
           [(1%Q, smooth_attempt); (2%Q, smooth_attempt)] 61%Q smooth_attempt []).
  - reflexivity.
  - repeat constructor; intros; reflexivity.
  - reflexivity.
Defined.

Lemma client_loop_never_raises (start_time : Q) (duration worker_id : Z)
    (rounds : list (Q * attempt)) :
  forall st e,
    snd (client_loop rounds start_time duration worker_id st) <> Raise e.
Proof.
  induction rounds as [|[now a] later IH]; intros st e; cbn [client_loop];
    [discriminate|].
  destruct (within_budget now start_time duration); [|discriminate].
  destruct (client_attempt worker_id a st) as [st1 [[] | e1 |]];
    [apply IH | apply IH | discriminate].
Qed.

Lemma client_loop_no_connection (start_time : Q) (duration worker_id : Z)
    (rounds : list (Q * attempt)) :
  forall st,
    Forall (fun r => exists e, att_connect (snd r) = Raise e) rounds ->
    bytes_sent (fst (client_loop rounds start_time duration worker_id st))
    = bytes_sent st /\
    requests (fst (client_loop rounds start_time duration worker_id st))
    = requests st /\
    sent_total
      (cl_log (fst (client_loop rounds start_time duration worker_id st)))
    = sent_total (cl_log st).
Proof.
  induction rounds as [|[now a] later IH]; intros st Hall; cbn [client_loop];
    [repeat split|].
  apply Forall_cons in Hall as [(e & He) Hall]. cbn [snd] in He.
  destruct (within_budget now start_time duration); [|repeat split].
  unfold client_attempt. rewrite He.
  match goal with
  | |- context [client_loop later _ _ _ ?s] =>
      destruct (IH s Hall) as (-> & -> & ->)
  end.
  cbn [cl_emit bytes_sent requests cl_log].
  rewrite !sent_total_app. unfold sent_total. simpl. repeat split; lia.
Qed.

(** X12: socket errors do not stop a client.  [network_client] never raises,
    whatever fails on its connections; and a client none of whose
    connection attempts gets through ends with nothing sent and nothing
    counted. *)
Theorem client_survives_connection_errors (env : client_env) (host : string)
    (port duration worker_id : Z) :
  (forall e,
     snd (network_client env host port duration worker_id) <> Raise e) /\
  (Forall (fun r => exists e, att_connect (snd r) = Raise e) (cl_rounds env) ->
   let st := fst (network_client env host port duration worker_id) in
   bytes_sent st = 0 /\ requests st = 0 /\ sent_total (cl_log st) = 0).
Proof.
  unfold network_client. split.
  - intros e.
    match goal with
    | |- context [client_loop ?r ?s ?d ?w ?st0] =>
        pose proof (client_loop_never_raises s d w r st0 e) as H;
        destruct (client_loop r s d w st0) as [st [[] | e1 |]]
    end; cbn [snd] in *; [discriminate | exact H | discriminate].
  - intros Hall.
    match goal with
    | |- context [client_loop ?r ?s ?d ?w ?st0] =>
        destruct (client_loop_no_connection s d w r st0 Hall)
          as (Hb & Hr & Hs);
        destruct (client_loop r s d w st0) as [st [[] | e1 |]]
    end; cbn [fst cl_emit bytes_sent requests cl_log] in *;
      rewrite ?sent_total_app, Hs; repeat split; assumption.
Qed.

Lemma client_survives_connection_errors_witness :
  let st :=
    fst (network_client
           {| cl_start_time := 0;
              cl_rounds :=
                [ (1%Q, {| att_connect := Raise OSError;
                           att_round := fun _ => RoundOk;
                           att_close := Ok tt |});
                  (61%Q, {| att_connect := Raise SocketTimeout;
                            att_round := fun _ => RoundOk;
                            att_close := Ok tt |}) ] |}
           "127.0.0.1" 9999 60 0) in
  bytes_sent st = 0 /\ requests st = 0 /\ sent_total (cl_log st) = 0.
Proof.
  apply client_survives_connection_errors.
  constructor; [exists OSError; reflexivity|].
  constructor; [exists SocketTimeout; reflexivity | constructor].
Defined.

(** ** The command line *)

Lemma mode_in_choices (mode : string) :
  existsb (String.eqb mode) mode_choices = true <->
  mode = "server"%string \/ mode = "client"%string.
Proof.
  unfold mode_choices. cbn [existsb]. rewrite !orb_true_iff, !String.eqb_eq.
  split; [intros [H | [H | H]]; [auto | auto | discriminate] | tauto].
Qed.

(** X13: wrong worker counts on the command line.  [ram --threads 0] ends
    with exit status 1 after printing the [ZeroDivisionError], whatever the
    size and the duration; [cpu --cores c] with [c < 1] ends with exit status
    1 after printing the [ValueError]; in both cases no test has run. *)
Theorem main_refuses_empty_pools (f : Z -> Z) (m : machine)
    (size duration cores : Z) :
  cores < 1 ->
  main f m (RamArgs size duration 0)
  = Ok {| exit_status := 1;
          exit_report := None;
          exit_error :=
            Some (print_status "Error: {e}" [AExn ZeroDivisionError] error) |} /\
  main f m (CpuArgs (Some cores) duration)
  = Ok {| exit_status := 1;
          exit_report := None;
          exit_error :=
            Some (print_status "Error: {e}" [AExn ValueError] error) |}.
Proof.
  intros Hcores. split; [reflexivity|].
  unfold main, stress_cpu, cpu_pool, Pool.
  destruct (Z.ltb_spec cores 1); [reflexivity | lia].
Qed.

Lemma main_refuses_empty_pools_witness :
  main Z.sqrt
    {| machine_cpu := sample_cpu_env;
       machine_ram := fun _ => sample_ram_env;
       machine_net := sample_net_env |}
    (CpuArgs (Some 0) 60)
  = Ok {| exit_status := 1;
          exit_report := None;
          exit_error :=
            Some (print_status "Error: {e}" [AExn ValueError] error) |}.
Proof.
  apply (main_refuses_empty_pools Z.sqrt
           {| machine_cpu := sample_cpu_env;
              machine_ram := fun _ => sample_ram_env;
              machine_net := sample_net_env |} 1024 60 0).
  lia.
Defined.

(** X14: the mode the command line lets through.  A mode other than
    "server" and "client" stops [main] with exit status 2 and no test is run;
    and a network test started from [main] never takes the invalid-mode
    branch of [stress_network]. *)
Theorem main_checks_the_mode (f : Z -> Z) (m : machine) (mode host : string)
    (port duration clients : Z) :
  (mode <> "server"%string -> mode <> "client"%string ->
   main f m (NetworkArgs mode host port duration clients)
   = Ok {| exit_status := 2; exit_report := None; exit_error := None |}) /\
  (forall x r,
     main f m (NetworkArgs mode host port duration clients) = Ok x ->
     exit_report x = Some (NetReport r) ->
     ~ In invalid_mode (net_log r)).
Proof.
  split.
  - intros Hs Hc. unfold main.
    destruct (existsb (String.eqb mode) mode_choices) eqn:Hmode;
      [|reflexivity].
    apply mode_in_choices in Hmode. tauto.
  - intros x r Hmain Hrep. unfold main in Hmain.
    destruct (existsb (String.eqb mode) mode_choices) eqn:Hmode.
    + apply mode_in_choices in Hmode.
      unfold run_test in Hmain.
      destruct (stress_network (machine_net m) mode host port duration clients)
        as [rep | e |] eqn:Hnet; try discriminate;
        injection Hmain as <-; cbn [exit_report] in Hrep; [|discriminate].
      injection Hrep as <-.
      unfold stress_network in Hnet.
      destruct Hmode as [-> | ->]; cbn [String.eqb Ascii.eqb Bool.eqb] in Hnet.
      * destruct (network_server _ _ _ _); cbn [bind] in Hnet;
          try discriminate.
        injection Hnet as <-. cbn [net_log].
        intros [H | []]. discriminate.
      * destruct (join_all _); cbn [bind] in Hnet; try discriminate.
        injection Hnet as <-. cbn [net_log app]. intros Hin.
        destruct Hin as [H | [H | Hin]]; try discriminate.
        rewrite !in_app_iff in Hin.
        destruct Hin as [H | [H | [H | []]]]; try discriminate.
        -- apply in_flat_map in H as (i & _ & [H | [H | []]]); discriminate.
        -- apply in_map_iff in H as (i & H & _). discriminate.
    + injection Hmain as <-. discriminate.
Qed.

Lemma main_checks_the_mode_witness :
  main Z.sqrt
    {| machine_cpu := sample_cpu_env;
       machine_ram := fun _ => sample_ram_env;
       machine_net := sample_net_env |}
    (NetworkArgs "udp" "127.0.0.1" 9999 60 4)
  = Ok {| exit_status := 2; exit_report := None; exit_error := None |}.
Proof.
  apply main_checks_the_mode; discriminate.
Defined.

(** ** The progress messages of the allocation *)

Lemma allocate_loop_progress (worker_id : Z) (granted : Z -> bool)
    (indices : list Z) :
  forall st,
    Forall (fun i => granted i = true) indices ->
    exists extra,
      ram_log (fst (allocate_loop worker_id granted indices st))
      = ram_log st ++ extra /\
      forall e, In e extra <->
                exists i, In i indices /\ (i + 1) mod 100 = 0 /\
                          e = allocated_so_far worker_id (i + 1).
Proof.
  induction indices as [|i rest IH]; intros st Hall.
  - exists []. cbn [allocate_loop fst]. rewrite app_nil_r.
    split; [reflexivity|]. intros e. split; [intros [] | intros (i & [] & _)].
  - apply Forall_cons in Hall as [Hi Hrest].
    destruct (new_chunk_spec i) as (b & Hb & _).
    cbn [allocate_loop]. rewrite Hi, Hb.
    match goal with
    | |- context [allocate_loop _ _ rest ?s] =>
        destruct (IH s Hrest) as (extra & Hlog & Hextra)
    end.
    rewrite Hlog. clear Hlog.
    destruct (Z.eqb_spec ((i + 1) mod 100) 0) as [Hmod | Hmod].
    + cbn [ram_emit ram_log]. rewrite <- app_assoc.
      eexists. split; [reflexivity|]. intros e. cbn [app In].
      rewrite Hextra. split.
      * intros [<- | (k & Hk & Hkmod & ->)].
        -- exists i. split; [left; reflexivity|]. split; [exact Hmod | reflexivity].
        -- exists k. split; [right; exact Hk|]. split; [exact Hkmod | reflexivity].
      * intros (k & [<- | Hk] & Hkmod & ->); [left; reflexivity|].
        right. exists k. split; [exact Hk|]. split; [exact Hkmod | reflexivity].
    + cbn [ram_log]. exists extra. split; [reflexivity|]. intros e.
      rewrite Hextra. split.
      * intros (k & Hk & Hkmod & ->).
        exists k. split; [right; exact Hk|]. split; [exact Hkmod | reflexivity].
      * intros (k & [<- | Hk] & Hkmod & ->); [contradiction|].
        exists k. split; [exact Hk|]. split; [exact Hkmod | reflexivity].
Qed.

Lemma hold_loop_only_sleeps (ticks : list Q) (start_time : Q) (duration : Z) :
  forall st,
    exists extra,
      ram_log (fst (hold_loop ticks start_time duration st))
      = ram_log st ++ extra /\
      Forall (fun e => e = Sleep (1 # 10)) extra.
Proof.
  induction ticks as [|now later IH]; intros st; cbn [hold_loop].
  - exists []. rewrite app_nil_r. split; [reflexivity | constructor].
  - destruct (within_budget now start_time duration);
      [|exists []; rewrite app_nil_r; split; [reflexivity | constructor]].
    destruct (touch_every_10th 0 (memory_blocks st));
      try (exists []; rewrite app_nil_r; split; [reflexivity | constructor]).
    match goal with
    | |- context [hold_loop later _ _ ?s] =>
        destruct (IH s) as (extra & -> & Hextra)
    end.
    cbn [ram_log]. rewrite <- app_assoc. eexists. split; [reflexivity|].
    constructor; [reflexivity | exact Hextra].
Qed.

(** X15: a progress message for every 100 MB.  A worker to which every
    allocation is granted prints "Allocated m MB" exactly for the multiples
    [m] of 100 from 100 up to its size. *)
Theorem ram_worker_progress (worker_id size_mb duration m : Z)
    (env : ram_env) :
  (forall i, 0 <= i < size_mb -> ram_granted env i = true) ->
  deadline_reached (ram_ticks env) (ram_start_time env) duration ->
  exists st,
    ram_worker worker_id size_mb duration env = Ok st /\
    (In (allocated_so_far worker_id m) (ram_log st) <->
     0 < m <= size_mb /\ m mod 100 = 0).
Proof.
  intros Hgranted Hdl. unfold ram_worker, ram_try.
  set (st0 := {| memory_blocks := []; ram_log := _ |}).
  assert (Hall : Forall (fun i => ram_granted env i = true) (range size_mb)).
  { apply Forall_forall. intros i Hi.
    apply Hgranted, in_range, list_elem_of_In, Hi. }
  destruct (allocate_loop_granted worker_id (ram_granted env)
              (range size_mb) st0 Hall ltac:(constructor))
    as (st1 & Hrun & Hfull1 & _).
  destruct (allocate_loop_progress worker_id (ram_granted env)
              (range size_mb) st0 Hall) as (extra1 & Hlog1 & Hextra1).
  rewrite Hrun in Hlog1 |- *. cbn [fst] in Hlog1.
  match goal with
  | |- context [hold_loop ?t ?s ?d ?x] =>
      destruct (hold_loop_holds t s d Hdl x) as (st3 & Hhold & _);
      [apply full_chunks_nonempty; exact Hfull1|];
      destruct (hold_loop_only_sleeps t s d x) as (extra2 & Hlog3 & Hsleeps)
  end.
  rewrite Hhold in Hlog3 |- *. cbn [fst ram_emit ram_log] in Hlog3.
  eexists. split; [reflexivity|].
  cbn [ram_emit ram_log]. rewrite Hlog3, Hlog1. subst st0. cbn [ram_log].
  rewrite !in_app_iff, Hextra1. split.
  - intros [[[[H | H] | H] | H] | H].
    + destruct H as [H | []]. discriminate.
    + destruct H as (i & Hi & Hmod & H). injection H as ->.
      apply in_range in Hi. split; [lia | exact Hmod].
    + destruct H as [H | []]. discriminate.
    + rewrite Forall_forall in Hsleeps.
      apply list_elem_of_In, Hsleeps in H. discriminate.
    + destruct H as [H | []]. discriminate.
  - intros [Hm Hmod]. left. left. left. right.
    exists (m - 1). split; [apply in_range; lia|].
    replace (m - 1 + 1) with m by lia. split; [exact Hmod | reflexivity].
Qed.

Lemma ram_worker_progress_witness :
  exists st,
    ram_worker 0 250 60 sample_ram_env = Ok st /\
    In (allocated_so_far 0 200) (ram_log st).
Proof.
  destruct (ram_worker_progress 0 250 60 200 sample_ram_env)
    as (st & Hrun & Hiff).
  - intros i Hi. reflexivity.
  - apply Exists_cons_hd. reflexivity.
  - exists st. split; [exact Hrun|]. apply Hiff. split; [lia | reflexivity].
Defined.
